(** * Squashfs extended attributes (xattr.c): a shallow embedding

    The embedded code is the xattr reader appended to
    [include/net/netfilter/nf_conntrack_timeout.h]: the entry iterator
    ([xattr_iterator_read_next], [squashfs_xattr_iterator_start],
    [squashfs_xattr_iterator_next], [squashfs_xattr_iterator_end]), the
    name filter [filtered] and the two queries [squashfs_listxattr] and
    [squashfs_getxattr].

    Conventions.
    - C integers are [Z]; every operation that can leave its type's range
      is followed by the wrap of that type ([u32] for [unsigned int],
      [u64] for [u64], [s32] for [int], [ssize_t] for the return type of
      the queries).  [size_t] and [ssize_t] are 64 bits wide (LP64).
    - Kernel memory is a finite map from addresses to byte arrays;
      [kmalloc] may fail, as scripted by the state.
    - The metadata reader [squashfs_read_metadata] and the privilege test
      [capable] are not part of the file: they are the two fields of an
      environment [env] that every function takes, so every theorem holds
      for all readers and all privilege tests. *)

From Stdlib Require Import ZArith Lia.
From Stdlib.Strings Require Import Byte String.
From stdpp Require Import base option list gmap.

Local Open Scope Z_scope.
#[local] Set Warnings "-clear-no-such-hyp".

(** ** Machine integers *)

Definition u32 (z : Z) : Z := z mod 2 ^ 32.
Definition u64 (z : Z) : Z := z mod 2 ^ 64.
Definition s32 (z : Z) : Z := (z + 2 ^ 31) mod 2 ^ 32 - 2 ^ 31.
Definition ssize_t (z : Z) : Z := (z + 2 ^ 63) mod 2 ^ 64 - 2 ^ 63.

(** Modelled from the spec: the kernel headers that give the error codes,
    the capability number and the trusted prefix their values are not in
    the file.  The spec has the error kinds IO, OUT_OF_MEMORY, RANGE and
    NOT_FOUND and the privileged prefix; the numbers are those of
    asm-generic/errno-base.h and errno.h, linux/capability.h and
    linux/xattr.h. *)
Definition EIO : Z := 5.
Definition ENOMEM : Z := 12.
Definition ERANGE : Z := 34.
Definition ENODATA : Z := 61.

Definition CAP_SYS_ADMIN : Z := 21.
Definition XATTR_TRUSTED_PREFIX : list byte := list_byte_of_string "trusted.".
Definition XATTR_TRUSTED_PREFIX_LEN : Z := 8.

(** Modelled from the spec: the declarations of
    [struct squashfs_xattr_header] and [struct squashfs_xattr_entry]
    (squashfs_fs.h) are not in the file.  The header is one little-endian
    32-bit [size]; an entry header is two little-endian 32-bit fields,
    [name_len] then [value_len]. *)
Definition sizeof_xattr_header : Z := 4.
Definition sizeof_xattr_entry : Z := 8.

(** ** Bytes and C strings *)

Definition byte_val (b : byte) : Z := Z.of_N (Byte.to_N b).

(** [le32_to_cpu] applied to the four bytes found at index [i] of a
    buffer; a byte the buffer does not have reads as zero. *)
Definition le32_to_cpu (buf : list byte) (i : nat) : Z :=
  byte_val (nth i buf x00)
  + Z.shiftl (byte_val (nth (i + 1) buf x00)) 8
  + Z.shiftl (byte_val (nth (i + 2) buf x00)) 16
  + Z.shiftl (byte_val (nth (i + 3) buf x00)) 24.

(** [strncmp s1 s2 n]: the sign is not modelled further than the difference
    of the first bytes that differ; the end of a list reads as the
    terminating NUL. *)
Fixpoint strncmp (s1 s2 : list byte) (n : nat) : Z :=
  match n with
  | O => 0
  | S n' =>
      let c1 := hd x00 s1 in
      let c2 := hd x00 s2 in
      if negb (Byte.eqb c1 c2) then byte_val c1 - byte_val c2
      else if Byte.eqb c1 x00 then 0
      else strncmp (tl s1) (tl s2) n'
  end.

(** [memcpy (dst + pos, src, length src)] on a caller buffer held as a
    list.  Writing past the end of [dst] is undefined in C; the model
    then extends the list. *)
Definition memcpy (dst : list byte) (pos : nat) (src : list byte) : list byte :=
  take pos dst ++ src ++ drop (pos + length src) dst.

(** ** Kernel memory, allocator and read log *)

Record kmem := Kmem {
  cells : gmap nat (list byte);   (* live kmalloc'ed objects *)
  alloc_fail : list bool;         (* head [true]: the next kmalloc fails *)
  io_log : list (Z * Z * Z)       (* (block, offset, length) of each read *)
}.

(** [kmalloc]: NULL when the script says so, else a new object at an
    address that is not live.  What a new object holds is unspecified in
    C; here it is zero bytes.  [kmalloc(0)] gives an empty object. *)
Definition kmalloc (size : Z) (m : kmem) : option nat * kmem :=
  match alloc_fail m with
  | true :: rest => (None, Kmem (cells m) rest (io_log m))
  | _ =>
      let p := fresh (dom (cells m)) in
      (Some p, Kmem (<[p := replicate (Z.to_nat size) x00]> (cells m))
                    (tl (alloc_fail m)) (io_log m))
  end.

(** [kfree(NULL)] does nothing. *)
Definition kfree (p : option nat) (m : kmem) : kmem :=
  match p with
  | None => m
  | Some a => Kmem (delete a (cells m)) (alloc_fail m) (io_log m)
  end.

(** The bytes of the object a pointer refers to. *)
Definition deref (m : kmem) (p : option nat) : list byte :=
  match p with
  | None => []
  | Some a => default [] (cells m !! a)
  end.

(** The reader delivers [data] into the object at [a], from its start. *)
Definition store_bytes (a : nat) (data : list byte) (m : kmem) : kmem :=
  Kmem (alter (fun old => take (length old) (data ++ drop (length data) old)) a (cells m))
       (alloc_fail m) (io_log m).

(** [p[i] = b] for the object at [a]. *)
Definition store_byte (a : nat) (i : nat) (b : byte) (m : kmem) : kmem :=
  Kmem (alter (fun old => <[i := b]> old) a (cells m)) (alloc_fail m) (io_log m).

(** What one call of the metadata reader gives back: the C return value,
    the bytes it delivered and the advanced cursor. *)
Record read_result := ReadResult {
  rd_ret : Z;
  rd_data : list byte;
  rd_block : Z;
  rd_offset : Z
}.

(** Modelled from the spec: squashfs_fs_sb.h and squashfs_fs_i.h, which
    declare [msblk->xattr_table] and [squashfs_i(inode)->xattr], are not in
    the file.  The table base is a block address, -1 (the value the code
    tests for) when the image has no xattr table; the locator is the
    32-bit value stored for the inode, which the code copies into an
    [int].  [s_image] stands for the device the reader decodes. *)
Record super_block := SuperBlock {
  xattr_table : Z;
  s_image : list byte
}.

Record inode := Inode {
  i_sb : super_block;
  i_xattr : Z              (* squashfs_i(inode)->xattr, the 32-bit locator *)
}.

Record dentry := Dentry { d_inode : inode }.

(** The two external functions:
    int squashfs_read_metadata(sb, buffer, &block, &offset, length) and
    capable(cap). *)
Record env := Env {
  squashfs_read_metadata : super_block -> Z -> Z -> Z -> read_result;
  capable : Z -> bool
}.

Record squashfs_xattr_iterator := Iter {
  name_len : Z;
  value_len : Z;
  name : option nat;
  value : option nat;
  sb : super_block;
  block : Z;
  offset : Z;
  remaining_bytes : Z
}.

Definition set_lens (it : squashfs_xattr_iterator) (nl vl : Z) :=
  Iter nl vl (name it) (value it) (sb it) (block it) (offset it) (remaining_bytes it).
Definition set_name (it : squashfs_xattr_iterator) (p : option nat) :=
  Iter (name_len it) (value_len it) p (value it) (sb it) (block it) (offset it)
       (remaining_bytes it).
Definition set_value (it : squashfs_xattr_iterator) (p : option nat) :=
  Iter (name_len it) (value_len it) (name it) p (sb it) (block it) (offset it)
       (remaining_bytes it).
Definition set_cursor (it : squashfs_xattr_iterator) (blk off : Z) :=
  Iter (name_len it) (value_len it) (name it) (value it) (sb it) blk off
       (remaining_bytes it).
Definition set_remaining (it : squashfs_xattr_iterator) (r : Z) :=
  Iter (name_len it) (value_len it) (name it) (value it) (sb it) (block it) (offset it) r.

Section Xattr.

Variable E : env.

(** A call of the reader, logged. *)
Definition read_metadata (s : super_block) (blk off len : Z) (m : kmem)
  : read_result * kmem :=
  (squashfs_read_metadata E s blk off len,
   Kmem (cells m) (alloc_fail m) (io_log m ++ [(blk, off, len)])).

Definition xattr_iterator_release_buffer (iter : squashfs_xattr_iterator) (m : kmem)
  : squashfs_xattr_iterator * kmem :=
  let m := kfree (name iter) m in
  let iter := set_name iter None in
  let m := kfree (value iter) m in
  let iter := set_value iter None in
  (iter, m).

(** Returns 1 with an entry decoded, 0 at the end, a negative errno. *)
Definition xattr_iterator_read_next (iter : squashfs_xattr_iterator) (m : kmem)
  : Z * squashfs_xattr_iterator * kmem :=
  if remaining_bytes iter =? 0 then (0, iter, m) else
  if remaining_bytes iter <? sizeof_xattr_entry then (- EIO, iter, m) else
  let '(r, m) := read_metadata (sb iter) (block iter) (offset iter) sizeof_xattr_entry m in
  let iter := set_cursor iter (rd_block r) (rd_offset r) in
  if rd_ret r <? 0 then (rd_ret r, iter, m) else
  if rd_ret r <? sizeof_xattr_entry then (0, iter, m) else
  let entry := rd_data r in
  let iter := set_remaining iter (u32 (remaining_bytes iter - sizeof_xattr_entry)) in
  let iter := set_lens iter (le32_to_cpu entry 0) (le32_to_cpu entry 4) in
  if (4096 <? name_len iter) || (65536 <? value_len iter) then (- EIO, iter, m) else
  let total_len := u32 (name_len iter + value_len iter) in
  if remaining_bytes iter <? total_len then (- EIO, iter, m) else
  let '(p, m) := kmalloc (name_len iter + 1) m in
  let iter := set_name iter p in
  match p with
  | None => (- ENOMEM, iter, m)
  | Some pn =>
      let '(q, m) := kmalloc (value_len iter) m in
      let iter := set_value iter q in
      match q with
      | None => (- ENOMEM, iter, m)
      | Some pv =>
          let '(r, m) := read_metadata (sb iter) (block iter) (offset iter) (name_len iter) m in
          let m := store_bytes pn (rd_data r) m in
          let iter := set_cursor iter (rd_block r) (rd_offset r) in
          if rd_ret r <? 0 then (rd_ret r, iter, m) else
          if rd_ret r <? name_len iter then (- EIO, iter, m) else
          let m := store_byte pn (Z.to_nat (name_len iter)) x00 m in
          let '(r, m) := read_metadata (sb iter) (block iter) (offset iter) (value_len iter) m in
          let m := store_bytes pv (rd_data r) m in
          let iter := set_cursor iter (rd_block r) (rd_offset r) in
          if rd_ret r <? 0 then (rd_ret r, iter, m) else
          if rd_ret r <? value_len iter then (- EIO, iter, m) else
          let iter := set_remaining iter (u32 (remaining_bytes iter - total_len)) in
          (1, iter, m)
      end
  end.

(** Returns 1 if the inode has an attribute set, 0 if none, a negative
    errno.  [xattr] is the local [int] copy of the locator. *)
Definition squashfs_xattr_iterator_start (ino : inode) (m : kmem)
  : Z * squashfs_xattr_iterator * kmem :=
  let s := i_sb ino in
  let xattr := s32 (i_xattr ino) in
  let iter := Iter 0 0 None None s 0 0 0 in
  if (xattr =? -1) || (xattr_table s =? -1) then (0, iter, m) else
  let iter := set_cursor iter (u64 (xattr_table s + Z.shiftr xattr 13)) (Z.land xattr 8191) in
  let '(r, m) := read_metadata (sb iter) (block iter) (offset iter) sizeof_xattr_header m in
  let iter := set_cursor iter (rd_block r) (rd_offset r) in
  if rd_ret r <? 0 then (rd_ret r, iter, m) else
  if rd_ret r <? sizeof_xattr_header then (- EIO, iter, m) else
  let iter := set_remaining iter (u32 (le32_to_cpu (rd_data r) 0 - 4)) in
  (1, iter, m).

Definition squashfs_xattr_iterator_next (iter : squashfs_xattr_iterator) (m : kmem)
  : Z * squashfs_xattr_iterator * kmem :=
  let '(iter, m) := xattr_iterator_release_buffer iter m in
  xattr_iterator_read_next iter m.

Definition squashfs_xattr_iterator_end (iter : squashfs_xattr_iterator) (m : kmem)
  : squashfs_xattr_iterator * kmem :=
  xattr_iterator_release_buffer iter m.

(** [true] stands for a non-zero result: the entry is skipped. *)
Definition filtered (nm : list byte) : bool :=
  if capable E CAP_SYS_ADMIN then false
  else negb (strncmp nm XATTR_TRUSTED_PREFIX (Z.to_nat XATTR_TRUSTED_PREFIX_LEN) =? 0).

(** The number of loop iterations a budget allows: every iteration but
    the last takes at least [sizeof_xattr_entry] bytes from it. *)
Definition loop_bound (iter : squashfs_xattr_iterator) : nat :=
  S (Z.to_nat (remaining_bytes iter / sizeof_xattr_entry)).

(** The [while] loop of [squashfs_listxattr].  [pos] is how far [buffer]
    has been advanced; the result is [err], [written], the caller's buffer
    and the iterator.  [None]: the iteration bound was too small. *)
Fixpoint listxattr_loop (fuel : nat) (iter : squashfs_xattr_iterator)
    (buffer : option (list byte)) (pos : Z) (size : Z) (written : Z) (m : kmem)
  : option (Z * Z * option (list byte) * squashfs_xattr_iterator * kmem) :=
  match fuel with
  | O => None
  | S fuel' =>
      let '(err, iter, m) := squashfs_xattr_iterator_next iter m in
      if err =? 1 then
        let count := name_len iter + 1 in
        if filtered (deref m (name iter)) then
          listxattr_loop fuel' iter buffer pos size written m
        else
          let written := ssize_t (written + count) in
          match buffer with
          | None => listxattr_loop fuel' iter buffer pos size written m
          | Some b =>
              if size <? count then Some (- ERANGE, written, buffer, iter, m)
              else
                let b := memcpy b (Z.to_nat pos)
                           (take (Z.to_nat (name_len iter)) (deref m (name iter))) in
                let b := memcpy b (Z.to_nat (pos + name_len iter)) [x00] in
                listxattr_loop fuel' iter (Some b) (pos + count) (size - count) written m
          end
      else Some (err, written, buffer, iter, m)
  end.

(** The result is the return value, the caller's buffer and the memory. *)
Definition squashfs_listxattr (d : dentry) (buffer : option (list byte)) (size : Z)
    (m : kmem) : option (Z * option (list byte) * kmem) :=
  let '(err, iter, m) := squashfs_xattr_iterator_start (d_inode d) m in
  if err <=? 0 then Some (err, buffer, m) else
  match listxattr_loop (loop_bound iter) iter buffer 0 size 0 m with
  | None => None
  | Some (err, written, buffer, iter, m) =>
      let '(_, m) := squashfs_xattr_iterator_end iter m in
      Some (if err <? 0 then err else written, buffer, m)
  end.

(** The [while] loop of [squashfs_getxattr] up to the label it leaves
    through: the result is [err] at [found:], the buffer and the iterator. *)
Fixpoint getxattr_loop (fuel : nat) (iter : squashfs_xattr_iterator)
    (qname : list byte) (buffer : option (list byte)) (size : Z) (m : kmem)
  : option (Z * option (list byte) * squashfs_xattr_iterator * kmem) :=
  match fuel with
  | O => None
  | S fuel' =>
      let '(err, iter, m) := squashfs_xattr_iterator_next iter m in
      if err =? 1 then
        if negb (strncmp qname (deref m (name iter)) (Z.to_nat (name_len iter)) =? 0) then
          getxattr_loop fuel' iter qname buffer size m
        else
          let err := s32 (value_len iter) in
          match buffer with
          | None => Some (err, buffer, iter, m)
          | Some b =>
              if size <? value_len iter then Some (- ERANGE, buffer, iter, m)
              else
                Some (err,
                      Some (memcpy b 0 (take (Z.to_nat (value_len iter))
                                             (deref m (value iter)))),
                      iter, m)
          end
      else Some (- ENODATA, buffer, iter, m)
  end.

Definition squashfs_getxattr (d : dentry) (qname : list byte)
    (buffer : option (list byte)) (size : Z) (m : kmem)
  : option (Z * option (list byte) * kmem) :=
  let '(err, iter, m) := squashfs_xattr_iterator_start (d_inode d) m in
  if err <? 0 then Some (err, buffer, m) else
  if err =? 0 then
    let '(_, m) := squashfs_xattr_iterator_end iter m in
    Some (- ENODATA, buffer, m)
  else
    match getxattr_loop (loop_bound iter) iter qname buffer size m with
    | None => None
    | Some (err, buffer, iter, m) =>
        let '(_, m) := squashfs_xattr_iterator_end iter m in
        Some (err, buffer, m)
    end.

End Xattr.

(** ** A device for examples

    The image is one uncompressed stream and a position in it is
    [block + offset].  A read returns the bytes that are there, fewer than
    asked at the end of the image. *)
Definition flat_read (s : super_block) (blk off len : Z) : read_result :=
  let data := take (Z.to_nat len) (drop (Z.to_nat (blk + off)) (s_image s)) in
  ReadResult (Z.of_nat (length data)) data blk (off + Z.of_nat (length data)).

(** The same device with a bad sector: a read that starts at position
    [bad] fails with [code]. *)
Definition faulty_read (bad code : Z) (s : super_block) (blk off len : Z) : read_result :=
  if blk + off =? bad then ReadResult code [] blk off else flat_read s blk off len.

Definition le32 (z : Z) : list byte :=
  map (fun k => default x00 (Byte.of_N (Z.to_N (Z.shiftr z (8 * k) mod 256)))) [0; 1; 2; 3].

Definition bytes_of (s : string) : list byte := list_byte_of_string s.


(** ** Attribute sets as the reader presents them

    The statements below speak of the attribute set stored for an inode.
    These definitions say what that means for a reader: which reads
    succeed, and with which bytes. *)

Definition entry : Type := list byte * list byte.

Definition len (l : list byte) : Z := Z.of_nat (length l).

Section Stored.

Variable E : env.
Variable s : super_block.

(** At the cursor [(blk, off)] the reader delivers one entry: its 8-byte
    header, the name [nm] and the value [v], and leaves the cursor at
    [(blk', off')]. *)
Definition entry_at (blk off : Z) (nm v : list byte) (blk' off' : Z) : Prop :=
  let r1 := squashfs_read_metadata E s blk off sizeof_xattr_entry in
  let r2 := squashfs_read_metadata E s (rd_block r1) (rd_offset r1) (len nm) in
  let r3 := squashfs_read_metadata E s (rd_block r2) (rd_offset r2) (len v) in
  rd_ret r1 = sizeof_xattr_entry /\
  le32_to_cpu (rd_data r1) 0 = len nm /\ le32_to_cpu (rd_data r1) 4 = len v /\
  len nm <= 4096 /\ len v <= 65536 /\
  rd_ret r2 = len nm /\ rd_data r2 = nm /\
  rd_ret r3 = len v /\ rd_data r3 = v /\
  rd_block r3 = blk' /\ rd_offset r3 = off'.

(** [stored blk off B es blk' off' B']: from the cursor [(blk, off)] and
    within the budget [B] the reader delivers the entries [es], each within
    the budget left for it, up to the cursor [(blk', off')] where [B']
    bytes of budget remain. *)
Inductive stored : Z -> Z -> Z -> list entry -> Z -> Z -> Z -> Prop :=
  | stored_nil blk off B : stored blk off B [] blk off B
  | stored_cons blk off B nm v blk1 off1 es blk' off' B' :
      entry_at blk off nm v blk1 off1 ->
      8 + len nm + len v <= B -> B < 2 ^ 32 ->
      stored blk1 off1 (B - (8 + len nm + len v)) es blk' off' B' ->
      stored blk off B ((nm, v) :: es) blk' off' B'.

(** At the cursor, with [B <> 0] bytes of budget, there is no room for an
    entry header, or the header the reader delivers declares a name longer
    than 4096, a value longer than 65536, or more bytes than the budget
    has after the header. *)
Definition malformed_at (blk off B : Z) : Prop :=
  B <> 0 /\
  (B < sizeof_xattr_entry \/
   let r := squashfs_read_metadata E s blk off sizeof_xattr_entry in
   sizeof_xattr_entry <= rd_ret r /\
   (4096 < le32_to_cpu (rd_data r) 0 \/ 65536 < le32_to_cpu (rd_data r) 4 \/
    B - sizeof_xattr_entry < le32_to_cpu (rd_data r) 0 + le32_to_cpu (rd_data r) 4)).

End Stored.

Section Sets.

Variable E : env.

(** The header of the inode's attribute set is readable and its [size]
    field holds [total]; the cursor after it is [(blk, off)]. *)
Definition header_at (ino : inode) (total blk off : Z) : Prop :=
  let xattr := s32 (i_xattr ino) in
  let r := squashfs_read_metadata E (i_sb ino)
             (u64 (xattr_table (i_sb ino) + Z.shiftr xattr 13)) (Z.land xattr 8191)
             sizeof_xattr_header in
  xattr <> -1 /\ xattr_table (i_sb ino) <> -1 /\
  rd_ret r = sizeof_xattr_header /\
  le32_to_cpu (rd_data r) 0 = total /\
  rd_block r = blk /\ rd_offset r = off.

(** The inode has no attribute set: the locator is the sentinel, or the
    image has no xattr table. *)
Definition no_xattrs (ino : inode) : Prop :=
  s32 (i_xattr ino) = -1 \/ xattr_table (i_sb ino) = -1.

(** A well-formed attribute set: none at all, or a header that declares
    at least its own 4 bytes and entries [es] that use up the budget
    [total - 4] exactly. *)
Definition well_formed (ino : inode) (es : list entry) : Prop :=
  (no_xattrs ino /\ es = []) \/
  exists total blk off blk' off',
    header_at ino total blk off /\ 4 <= total /\
    stored E (i_sb ino) blk off (total - 4) es blk' off' 0.

(** An attribute set with the well-formed entries [es] followed by a
    malformed one. *)
Definition malformed_after (ino : inode) (es : list entry) : Prop :=
  exists total blk off blk' off' B',
    header_at ino total blk off /\
    stored E (i_sb ino) blk off (u32 (total - 4)) es blk' off' B' /\
    malformed_at E (i_sb ino) blk' off' B'.

(** The name [filtered] sees: the iterator's buffer, NUL-terminated. *)
Definition passes (nm : list byte) : bool := negb (filtered E (nm ++ [x00])).

(** The sum of [name_len + 1] over the entries that pass the filter, and
    the names of those entries, each followed by a NUL. *)
Fixpoint required_size (es : list entry) : Z :=
  match es with
  | [] => 0
  | (nm, _) :: es' => (if passes nm then len nm + 1 else 0) + required_size es'
  end.

Fixpoint listing (es : list entry) : list byte :=
  match es with
  | [] => []
  | (nm, _) :: es' => (if passes nm then nm ++ [x00] else []) ++ listing es'
  end.

(** The comparison [squashfs_getxattr] makes for an entry named [nm]. *)
Definition name_matches (qname : list byte) (e : entry) : bool :=
  strncmp qname (e.1 ++ [x00]) (length e.1) =? 0.

(** What [squashfs_getxattr] returns for a value [v] it found: the
    return value and the caller's buffer. *)
Definition found_result (buffer : option (list byte)) (size : Z) (v : list byte)
  : Z * option (list byte) :=
  match buffer with
  | None => (len v, None)
  | Some b => if size <? len v then (- ERANGE, Some b) else (len v, Some (memcpy b 0 v))
  end.

(** [n] consecutive steps of the iterator that each decode an entry. *)
Inductive ready_steps : nat -> squashfs_xattr_iterator -> kmem ->
                        squashfs_xattr_iterator -> kmem -> Prop :=
  | ready_O iter m : ready_steps O iter m iter m
  | ready_S n iter m iter1 m1 iter2 m2 :
      squashfs_xattr_iterator_next E iter m = (1, iter1, m1) ->
      ready_steps n iter1 m1 iter2 m2 ->
      ready_steps (S n) iter m iter2 m2.

End Sets.

(** ** Ownership of buffers

    [owns base iter m]: the live objects of [m] are those of [base],
    unchanged, and the name and value buffers of the iterator, which are
    two different objects not in [base]. *)
Definition buffers (iter : squashfs_xattr_iterator) : gset nat :=
  from_option (fun p => {[ p ]}) ∅ (name iter) ∪ from_option (fun p => {[ p ]}) ∅ (value iter).

Definition framed (base : gmap nat (list byte)) (X : gset nat)
    (c : gmap nat (list byte)) : Prop :=
  dom c = dom base ∪ X /\ X ## dom base /\
  forall a, a ∈ dom base -> c !! a = base !! a.

Definition owns (base : gmap nat (list byte)) (iter : squashfs_xattr_iterator)
    (m : kmem) : Prop :=
  framed base (buffers iter) (cells m) /\
  (forall p, name iter = Some p -> value iter <> Some p).

(** Every name with its NUL, and the size of that: what a listing holds
    when no entry is filtered. *)
Fixpoint all_names (es : list entry) : list byte :=
  match es with
  | [] => []
  | (nm, _) :: es' => (nm ++ [x00]) ++ all_names es'
  end.

Fixpoint all_names_size (es : list entry) : Z :=
  match es with
  | [] => 0
  | (nm, _) :: es' => (len nm + 1) + all_names_size es'
  end.

(** ** Example images *)

Module Examples.

Definition E_root : env := Env flat_read (fun _ => true).
Definition E_user : env := Env flat_read (fun _ => false).

(** A device on which the read at position [bad] fails with [-EIO]. *)
Definition E_bad_sector (bad : Z) : env := Env (faulty_read bad (- EIO)) (fun _ => true).

(** A device on which every read fails. *)
Definition E_unreadable : env :=
  Env (fun _ blk off _ => ReadResult (- EIO) [] blk off) (fun _ => true).

Definition on_image (img : list byte) : dentry := Dentry (Inode (SuperBlock 0 img) 0).

Definition entry_bytes (nm v : list byte) : list byte :=
  le32 (len nm) ++ le32 (len v) ++ nm ++ v.

(** [total_size = 16], one entry [abc -> 2A]. *)
Definition img_abc : list byte := le32 16 ++ entry_bytes (bytes_of "abc") [x2a].

(** Two entries, one in the trusted namespace. *)
Definition img_two : list byte :=
  le32 38 ++ entry_bytes (bytes_of "trusted.a") [x2a]
          ++ entry_bytes (bytes_of "user.b") [x01; x02].

Definition es_two : list entry :=
  [(bytes_of "trusted.a", [x2a]); (bytes_of "user.b", [x01; x02])].

(** The image ends 4 bytes into the first entry header. *)
Definition img_short : list byte := le32 16 ++ le32 3.

(** The header declares [total_size = 0]. *)
Definition img_size0 : list byte := le32 0 ++ entry_bytes (bytes_of "abc") [x2a].

(** The first entry declares [name_len = 5000]. *)
Definition img_long_name : list byte :=
  le32 16 ++ le32 5000 ++ le32 1 ++ bytes_of "abc" ++ [x2a].

(** One well-formed entry [abc -> 2A], then an entry header that
    declares [name_len = 5000]. *)
Definition img_bad_second : list byte :=
  le32 24 ++ entry_bytes (bytes_of "abc") [x2a] ++ le32 5000 ++ le32 0.

(** The first entry declares [value_len = 70000]. *)
Definition img_long_value : list byte :=
  le32 16 ++ le32 3 ++ le32 70000 ++ bytes_of "abc" ++ [x2a].

(** The first entry declares 3 + 2 bytes where the budget has 4 left. *)
Definition img_over_budget : list byte :=
  le32 16 ++ le32 3 ++ le32 2 ++ bytes_of "abc" ++ [x2a].

(** Two entries, the name of the first a prefix of the name of the
    second. *)
Definition img_shadow : list byte :=
  le32 28 ++ entry_bytes (bytes_of "ab") [x01; x02]
          ++ entry_bytes (bytes_of "abc") [x09].

Definition es_shadow : list entry :=
  [(bytes_of "ab", [x01; x02]); (bytes_of "abc", [x09])].

(** One entry, outside the trusted namespace. *)
Definition img_user : list byte :=
  le32 20 ++ entry_bytes (bytes_of "user.b") [x01; x02].

(** A locator with bit 31 set. *)
Definition ino_high : inode := Inode (SuperBlock 0 []) 2147483648.

(** An iterator seated after the header of [img_abc]. *)
Definition iter_abc : squashfs_xattr_iterator :=
  Iter 0 0 None None (SuperBlock 0 img_abc) 0 4 12.

Definition empty_mem : kmem := Kmem ∅ [] [].

(** An iterator seated after the header of [img_two], and the state one
    step later: the iterator holds the name and the value of the first
    entry in two live buffers. *)
Definition iter_two : squashfs_xattr_iterator :=
  Iter 0 0 None None (SuperBlock 0 img_two) 0 4 34.

Definition held_two : Z * squashfs_xattr_iterator * kmem :=
  squashfs_xattr_iterator_next E_root iter_two empty_mem.

(** The step after that. *)
Definition second_two : Z * squashfs_xattr_iterator * kmem :=
  squashfs_xattr_iterator_next E_root held_two.1.2 held_two.2.

(** The return value and the caller's buffer of a query. *)
Definition outcome (r : option (Z * option (list byte) * kmem))
  : option (Z * option (list byte)) :=
  match r with
  | Some (ret, buf, _) => Some (ret, buf)
  | None => None
  end.

End Examples.

(** The bytes that [xattr_iterator_read_next] decodes into the entries
    [es], and an attribute set made of them: the 4-byte header with the
    total size, then the entries. *)
Fixpoint encode_entries (es : list entry) : list byte :=
  match es with
  | [] => []
  | (nm, v) :: es' => le32 (len nm) ++ le32 (len v) ++ nm ++ v ++ encode_entries es'
  end.

Definition encode_set (es : list entry) : list byte :=
  le32 (4 + len (encode_entries es)) ++ encode_entries es.

(** ** The conntrack timeout extension (the header part of the file)

    [struct ctnl_timeout] without its list and RCU heads, and
    [struct nf_conn_timeout], whose [timeout] pointer may be NULL. *)
Definition CTNL_TIMEOUT_NAME_MAX : Z := 32.

(** [__u8], [u_int8_t]: what a field or a parameter of that type holds
    of an integer. *)
Definition u8 (z : Z) : Z := z mod 2 ^ 8.

Record ctnl_timeout := CtnlTimeout {
  refcnt : Z;
  timeout_name : list byte;
  l3num : Z;
  l4num : Z;
  data : list byte
}.

Record nf_conn_timeout := NfConnTimeout { timeout : option ctnl_timeout }.

(** The extension area of a conntrack is not in the file: what the two
    functions use of it is an interface.  [nf_ct_ext_find] gives the
    extension with an id, NULL if there is none; [nf_ct_ext_add] gives
    the conntrack with room for a new extension, NULL if it cannot;
    [ext_store] is the assignment through the pointer it returned. *)
Record ct_ext_ops (nf_conn : Type) := CtExtOps {
  NF_CT_EXT_TIMEOUT : Z;
  nf_ct_ext_find : nf_conn -> Z -> option nf_conn_timeout;
  nf_ct_ext_add : nf_conn -> Z -> Z -> option nf_conn;
  ext_store : nf_conn -> Z -> nf_conn_timeout -> nf_conn
}.

Arguments NF_CT_EXT_TIMEOUT {nf_conn} _.
Arguments nf_ct_ext_find {nf_conn} _ _ _.
Arguments nf_ct_ext_add {nf_conn} _ _ _ _.
Arguments ext_store {nf_conn} _ _ _ _.

Section Conntrack.

Context {nf_conn : Type}.

(** CONFIG_NF_CONNTRACK_TIMEOUT *)
Variable config : bool.
Variable ops : ct_ext_ops nf_conn.

(** The outer [None] is the dereference of a NULL [timeout] pointer; the
    inner option is the pointer the function returns.  [protonum] is a
    [u_int8_t] parameter and [l4num] a [__u8] field: the comparison sees
    8 bits of each. *)
Definition nf_ct_timeout_find (ct : nf_conn) (protonum : Z)
  : option (option nf_conn_timeout) :=
  let protonum := u8 protonum in
  if config then
    match nf_ct_ext_find ops ct (NF_CT_EXT_TIMEOUT ops) with
    | Some timeout_ext =>
        match timeout timeout_ext with
        | None => None
        | Some t =>
            if u8 (l4num t) =? protonum then Some (Some timeout_ext) else Some None
        end
    | None => Some None
    end
  else Some None.

(** The pointer returned and the conntrack as the call leaves it. *)
Definition nf_ct_timeout_ext_add (ct : nf_conn) (t : option ctnl_timeout) (gfp : Z)
  : option nf_conn_timeout * nf_conn :=
  if config then
    match nf_ct_ext_add ops ct (NF_CT_EXT_TIMEOUT ops) gfp with
    | None => (None, ct)
    | Some ct' =>
        let timeout_ext := NfConnTimeout t in
        (Some timeout_ext, ext_store ops ct' (NF_CT_EXT_TIMEOUT ops) timeout_ext)
    end
  else (None, ct).

(** With the option unset, the inline stub; else the external function. *)
Definition nf_conntrack_timeout_init {net : Type} (extern_init : net -> Z) (n : net) : Z :=
  if config then extern_init n else 0.

End Conntrack.

(** An extension area for examples: one slot per id. *)
Definition slots_ops : ct_ext_ops (gmap Z nf_conn_timeout) :=
  CtExtOps (gmap Z nf_conn_timeout) 7
    (fun ct id => ct !! id)
    (fun ct id gfp =>
       match ct !! id with
       | Some _ => None
       | None => Some (<[id := NfConnTimeout None]> ct)
       end)
    (fun ct id e => <[id := e]> ct).

(** The namespace filter in the words of the specification (4.5), which
    are those of the comment above [filtered]: an entry is skipped when
    its name has the trusted prefix and the caller lacks the privilege;
    every other name passes.  With it, the size and the content the
    specification gives for a listing. *)
Fixpoint has_prefix (pre nm : list byte) : bool :=
  match pre, nm with
  | [], _ => true
  | _ :: _, [] => false
  | p :: pre', c :: nm' => Byte.eqb p c && has_prefix pre' nm'
  end.

Definition spec_passes (privileged : bool) (nm : list byte) : bool :=
  privileged || negb (has_prefix XATTR_TRUSTED_PREFIX nm).

Definition spec_required_size (privileged : bool) (es : list entry) : Z :=
  all_names_size (List.filter (fun e : entry => spec_passes privileged e.1) es).

Definition spec_listing (privileged : bool) (es : list entry) : list byte :=
  all_names (List.filter (fun e : entry => spec_passes privileged e.1) es).

(** An attribute set with the well-formed entries [es] followed by an
    entry whose header the reader fails to read, with the error [e]. *)
Definition unreadable_after (E : env) (ino : inode) (es : list entry) (e : Z) : Prop :=
  exists total blk off blk' off' B',
    header_at E ino total blk off /\
    stored E (i_sb ino) blk off (u32 (total - 4)) es blk' off' B' /\
    sizeof_xattr_entry <= B' /\
    rd_ret (squashfs_read_metadata E (i_sb ino) blk' off' sizeof_xattr_entry) = e /\
    e < 0.

(** The number of bytes the reader was asked for, over a read log. *)
Definition requested (log : list (Z * Z * Z)) : Z :=
  fold_right (fun rd acc => rd.2 + acc) 0 log.

(** * Properties *)

Ltac splits := repeat match goal with |- _ /\ _ => split end.

(** ** Integers, bytes and strings *)

Lemma byte_val_range (b : byte) : 0 <= byte_val b < 256.
Proof.
  unfold byte_val. pose proof (Byte.to_N_bounded b). lia.
Qed.

Lemma le32_to_cpu_range (buf : list byte) (i : nat) :
  0 <= le32_to_cpu buf i < 2 ^ 32.
Proof.
  unfold le32_to_cpu. rewrite !Z.shiftl_mul_pow2 by lia.
  pose proof (byte_val_range (nth i buf x00)).
  pose proof (byte_val_range (nth (i + 1) buf x00)).
  pose proof (byte_val_range (nth (i + 2) buf x00)).
  pose proof (byte_val_range (nth (i + 3) buf x00)).
  lia.
Qed.

Lemma u32_small (z : Z) : 0 <= z < 2 ^ 32 -> u32 z = z.
Proof. intros. unfold u32. apply Z.mod_small. lia. Qed.

Lemma u32_range (z : Z) : 0 <= u32 z < 2 ^ 32.
Proof. unfold u32. apply Z.mod_pos_bound. lia. Qed.

Lemma s32_small (z : Z) : - 2 ^ 31 <= z < 2 ^ 31 -> s32 z = z.
Proof. intros. unfold s32. rewrite Z.mod_small; lia. Qed.

Lemma ssize_t_small (z : Z) : - 2 ^ 63 <= z < 2 ^ 63 -> ssize_t z = z.
Proof. intros. unfold ssize_t. rewrite Z.mod_small; lia. Qed.

Lemma len_nonneg (l : list byte) : 0 <= len l.
Proof. unfold len. lia. Qed.

Lemma len_app (l k : list byte) : len (l ++ k) = len l + len k.
Proof. unfold len. rewrite length_app. lia. Qed.

Lemma to_nat_len (l : list byte) : Z.to_nat (len l) = length l.
Proof. unfold len. lia. Qed.

Lemma byte_eqb_refl (b : byte) : Byte.eqb b b = true.
Proof. apply Byte.byte_dec_lb. reflexivity. Qed.

(** The terminating NUL of the first argument may be left implicit. *)
Lemma strncmp_nul_l (s t : list byte) (n : nat) :
  strncmp (s ++ [x00]) t n = strncmp s t n.
Proof.
  revert s t. induction n as [|n IH]; intros s t; [reflexivity|].
  destruct s as [|c s]; simpl.
  - destruct (Byte.eqb x00 (hd x00 t)); reflexivity.
  - rewrite IH. reflexivity.
Qed.

(** The comparison looks at no byte of the query beyond the stored
    name's length. *)
Lemma strncmp_prefix (nm extra rest : list byte) :
  strncmp (nm ++ extra) (nm ++ rest) (length nm) = 0.
Proof.
  induction nm as [|c nm IH]; simpl; [reflexivity|].
  rewrite byte_eqb_refl. simpl.
  destruct (Byte.eqb c x00); [reflexivity | exact IH].
Qed.

Lemma memcpy_length (dst src : list byte) (pos : nat) :
  (pos + length src <= length dst)%nat ->
  length (memcpy dst pos src) = length dst.
Proof.
  intros H. unfold memcpy.
  rewrite !length_app, length_take, length_drop. lia.
Qed.

(** Two copies, the second right behind the first, are one copy. *)
Lemma memcpy_memcpy (dst x y : list byte) (pos : nat) :
  (pos <= length dst)%nat ->
  memcpy (memcpy dst pos x) (pos + length x) y = memcpy dst pos (x ++ y).
Proof.
  intros H. unfold memcpy.
  assert (Hl : length (take pos dst) = pos) by (rewrite length_take; lia).
  rewrite (app_assoc (take pos dst) x).
  rewrite take_app_length' by (rewrite length_app; lia).
  rewrite drop_app_ge by (rewrite length_app; lia).
  rewrite drop_drop, !length_app, Hl.
  rewrite <- !app_assoc.
  replace (pos + length x + (pos + length x + length y - (pos + length x)))%nat
    with (pos + (length x + length y))%nat by lia.
  reflexivity.
Qed.

Lemma memcpy_nil (dst : list byte) (pos : nat) : memcpy dst pos [] = dst.
Proof.
  unfold memcpy. simpl. rewrite Nat.add_0_r. apply take_drop.
Qed.

Lemma memcpy_all (dst src : list byte) :
  length src = length dst -> memcpy dst 0 src = src.
Proof.
  intros H. unfold memcpy. simpl. rewrite drop_ge by lia. apply app_nil_r.
Qed.

(** ** Memory *)

Lemma framed_nothing (base c : gmap nat (list byte)) : framed base ∅ c -> c = base.
Proof.
  intros (Hd & _ & Hl). apply map_eq. intros a.
  destruct (decide (a ∈ dom base)) as [Hin|Hin]; [auto|].
  assert (a ∉ dom c) by set_solver.
  rewrite (not_elem_of_dom_1 c a), (not_elem_of_dom_1 base a); auto.
Qed.

Lemma framed_refl (base : gmap nat (list byte)) : framed base ∅ base.
Proof. split; [|split]; [set_solver | set_solver | auto]. Qed.

Lemma framed_insert base X c a v :
  framed base X c -> a ∉ dom c -> framed base (X ∪ {[a]}) (<[a := v]> c).
Proof.
  intros (Hd & Hx & Hl) Ha. split; [|split].
  - rewrite dom_insert_L. set_solver.
  - set_solver.
  - intros b Hb. rewrite lookup_insert_ne; [auto | set_solver].
Qed.

Lemma framed_alter base X c a f :
  framed base X c -> a ∉ dom base -> framed base X (alter f a c).
Proof.
  intros (Hd & Hx & Hl) Ha. split; [|split].
  - rewrite dom_alter_L. exact Hd.
  - exact Hx.
  - intros b Hb. rewrite lookup_alter_ne; [auto | set_solver].
Qed.

Lemma framed_delete base X c a :
  framed base X c -> a ∉ dom base -> framed base (X ∖ {[a]}) (delete a c).
Proof.
  intros (Hd & Hx & Hl) Ha. split; [|split].
  - rewrite dom_delete_L. set_solver.
  - set_solver.
  - intros b Hb. rewrite lookup_delete_ne; [auto | set_solver].
Qed.

Lemma framed_ext base X Y c : framed base X c -> X = Y -> framed base Y c.
Proof. intros H <-. exact H. Qed.

Lemma kmalloc_inv (n : Z) (m : kmem) (p : option nat) (m' : kmem) :
  kmalloc n m = (p, m') ->
  io_log m' = io_log m /\ alloc_fail m' = tl (alloc_fail m) /\
  ((p = None /\ cells m' = cells m) \/
   (exists a, p = Some a /\ (a ∉ dom (cells m)) /\
      cells m' = <[a := replicate (Z.to_nat n) x00]> (cells m))).
Proof.
  unfold kmalloc. intros H.
  destruct (alloc_fail m) as [|[] rest]; inversion H; subst; simpl;
    repeat split; try (left; split; reflexivity);
    right; eexists; repeat split; apply is_fresh.
Qed.

Lemma kmalloc_succeeds (n : Z) (m : kmem) :
  alloc_fail m = [] ->
  kmalloc n m =
    (Some (fresh (dom (cells m))),
     Kmem (<[fresh (dom (cells m)) := replicate (Z.to_nat n) x00]> (cells m)) []
          (io_log m)).
Proof. intros H. unfold kmalloc. rewrite H. reflexivity. Qed.

(** ** The iterator *)

Section Iterator.

Variable E : env.

Ltac step_read_next H :=
  unfold xattr_iterator_read_next, read_metadata in H;
  cbn [name_len value_len name value sb block offset remaining_bytes
       set_lens set_name set_value set_cursor set_remaining] in H;
  cbv zeta in H;
  cbn [name_len value_len name value sb block offset remaining_bytes
       set_lens set_name set_value set_cursor set_remaining] in H;
  repeat match type of H with
    | context [if ?c then _ else _] => destruct c eqn:?
    | context [kmalloc ?n ?m] => destruct (kmalloc n m) as [[?|] ?] eqn:?
    end.

Lemma release_owns base iter m iter' m' :
  owns base iter m ->
  xattr_iterator_release_buffer iter m = (iter', m') ->
  name iter' = None /\ value iter' = None /\ cells m' = base /\
  alloc_fail m' = alloc_fail m /\ io_log m' = io_log m /\
  sb iter' = sb iter /\ block iter' = block iter /\ offset iter' = offset iter /\
  remaining_bytes iter' = remaining_bytes iter.
Proof.
  intros [Hf Hne] H. unfold xattr_iterator_release_buffer in H.
  inversion H; subst; clear H. simpl.
  repeat split; try (destruct (name iter), (value iter); reflexivity).
  apply framed_nothing. unfold buffers in Hf.
  destruct (name iter) as [p|] eqn:Hn, (value iter) as [q|] eqn:Hv; simpl in *.
  - assert (p <> q) by (intros ->; eapply Hne; eauto).
    destruct Hf as (Hd & Hx & Hl).
    eapply framed_ext.
    + apply framed_delete; [apply framed_delete; [split; [|split]; eauto|]|]; set_solver.
    + set_solver.
  - destruct Hf as (Hd & Hx & Hl). eapply framed_ext.
    + apply framed_delete; [split; [|split]; eauto|]. set_solver.
    + set_solver.
  - destruct Hf as (Hd & Hx & Hl). eapply framed_ext.
    + apply framed_delete; [split; [|split]; eauto|]. set_solver.
    + set_solver.
  - eapply framed_ext; [exact Hf | set_solver].
Qed.

Lemma read_next_owns base iter m r iter' m' :
  name iter = None -> value iter = None -> cells m = base ->
  xattr_iterator_read_next E iter m = (r, iter', m') ->
  owns base iter' m'.
Proof.
  intros Hn Hv Hc H.
  assert (Hbase : owns base iter m).
  { split; [|congruence]. unfold buffers. rewrite Hn, Hv, Hc. simpl.
    eapply framed_ext; [apply framed_refl | set_solver]. }
  destruct iter as [nl vl n v s blk off rem]. simpl in Hn, Hv. subst n v.
  step_read_next H.
  all: inversion H; subst; clear H; try exact Hbase.
  all: repeat match goal with
         | K : kmalloc _ _ = _ |- _ => apply kmalloc_inv in K; simpl in K;
             destruct K as (? & ? & [[? ?]|(? & ? & ? & ?)]); try discriminate
         | K : Some _ = Some _ |- _ => inversion K; subst; clear K
         end.
  all: repeat match goal with
         | K : cells ?k = <[ ?a := _ ]> (cells ?m), N : ?b ∉ dom (cells ?k) |- _ =>
             assert (b <> a /\ b ∉ dom (cells m))
               by (rewrite K, dom_insert_L in N; set_solver);
             clear N
         end.
  all: split; [| simpl; intros ? [= <-]; try discriminate; intros [= ->]; tauto].
  all: unfold buffers, store_bytes, store_byte; simpl.
  all: repeat (apply framed_alter; [| tauto]).
  all: repeat match goal with K : cells _ = _ |- _ => rewrite K; clear K end.
  all: try (eapply framed_ext;
            [ apply framed_insert; [apply framed_insert; [apply framed_refl | tauto] |];
              rewrite dom_insert_L; set_solver
            | set_solver ]).
  all: try (eapply framed_ext; [apply framed_insert; [apply framed_refl | tauto] | set_solver]).
  all: eapply framed_ext; [apply framed_refl | set_solver].
Qed.

(** A step that decodes an entry: what it checked and what it took from
    the budget. *)
Lemma read_next_ready iter m iter' m' :
  0 <= remaining_bytes iter < 2 ^ 32 ->
  xattr_iterator_read_next E iter m = (1, iter', m') ->
  sizeof_xattr_entry <= remaining_bytes iter /\
  0 <= name_len iter' <= 4096 /\ 0 <= value_len iter' <= 65536 /\
  name_len iter' + value_len iter' <= remaining_bytes iter - sizeof_xattr_entry /\
  remaining_bytes iter' =
    remaining_bytes iter - (sizeof_xattr_entry + name_len iter' + value_len iter') /\
  sb iter' = sb iter.
Proof.
  intros Hr H. destruct iter as [nl vl n v s blk off rem]. simpl in Hr.
  step_read_next H.
  all: inversion H; subst; clear H.
  all: unfold EIO, ENOMEM, sizeof_xattr_entry in *; try lia.
  all: simpl.
  all: repeat match goal with
         | K : (_ || _) = false |- _ => apply orb_false_elim in K; destruct K
         | K : (_ <? _) = _ |- _ => first [apply Z.ltb_lt in K | apply Z.ltb_ge in K]
         | K : (_ =? _) = _ |- _ => first [apply Z.eqb_eq in K | apply Z.eqb_neq in K]
         end.
  all: match goal with
       | |- context [le32_to_cpu ?d 0] =>
           pose proof (le32_to_cpu_range d 0); pose proof (le32_to_cpu_range d 4)
       end.
  all: rewrite (u32_small (rem - 8)) in * by lia.
  all: rewrite (u32_small (le32_to_cpu _ 0 + le32_to_cpu _ 4)) in * by lia.
  all: rewrite u32_small by lia.
  all: repeat split; lia.
Qed.

Lemma filled_name (nm : list byte) :
  <[length nm := x00]>
    (take (length (replicate (Z.to_nat (len nm + 1)) x00))
          (nm ++ drop (length nm) (replicate (Z.to_nat (len nm + 1)) x00)))
  = nm ++ [x00].
Proof.
  replace (Z.to_nat (len nm + 1)) with (S (length nm)) by (unfold len; lia).
  rewrite length_replicate, drop_replicate.
  replace (S (length nm) - length nm)%nat with 1%nat by lia. simpl.
  rewrite take_ge by (rewrite length_app; simpl; lia).
  rewrite insert_app_r_alt by lia.
  rewrite Nat.sub_diag. reflexivity.
Qed.

Lemma filled_value (v : list byte) :
  take (length (replicate (Z.to_nat (len v)) x00))
       (v ++ drop (length v) (replicate (Z.to_nat (len v)) x00)) = v.
Proof.
  rewrite to_nat_len, length_replicate, drop_replicate, Nat.sub_diag. simpl.
  rewrite app_nil_r. apply take_ge. lia.
Qed.

(** The step on an entry the reader presents, when memory is available:
    the entry is decoded into two fresh buffers. *)
Lemma read_next_entry s blk off nm v blk' off' iter m :
  entry_at E s blk off nm v blk' off' ->
  alloc_fail m = [] ->
  sb iter = s -> block iter = blk -> offset iter = off ->
  8 + len nm + len v <= remaining_bytes iter < 2 ^ 32 ->
  exists iter' m',
    xattr_iterator_read_next E iter m = (1, iter', m') /\
    name_len iter' = len nm /\ value_len iter' = len v /\
    deref m' (name iter') = nm ++ [x00] /\ deref m' (value iter') = v /\
    sb iter' = s /\ block iter' = blk' /\ offset iter' = off' /\
    remaining_bytes iter' = remaining_bytes iter - (8 + len nm + len v) /\
    alloc_fail m' = [].
Proof.
  intros (H1 & Hnl & Hvl & Hn & Hv & H2 & Hd2 & H3 & Hd3 & Hb & Ho) Haf Hs Hblk Hoff Hrem.
  destruct iter as [nl0 vl0 n0 v0 s0 blk0 off0 rem]. simpl in *. subst s0 blk0 off0.
  pose proof (len_nonneg nm). pose proof (len_nonneg v).
  unfold xattr_iterator_read_next, read_metadata.
  cbn [name_len value_len name value sb block offset remaining_bytes
       set_lens set_name set_value set_cursor set_remaining].
  cbv zeta.
  cbn [name_len value_len name value sb block offset remaining_bytes
       set_lens set_name set_value set_cursor set_remaining].
  unfold sizeof_xattr_entry in *.
  rewrite H1, Hnl, Hvl.
  replace (rem =? 0) with false by lia.
  replace (rem <? 8) with false by lia.
  replace (8 <? 0) with false by lia.
  replace (8 <? 8) with false by lia.
  replace (4096 <? len nm) with false by lia.
  replace (65536 <? len v) with false by lia.
  rewrite (u32_small (rem - 8)) by lia.
  rewrite (u32_small (len nm + len v)) by lia.
  replace (rem - 8 <? len nm + len v) with false by lia.
  cbn [orb].
  rewrite kmalloc_succeeds by assumption.
  rewrite kmalloc_succeeds by reflexivity.
  cbn [cells alloc_fail io_log].
  set (p := fresh (dom (cells m))).
  set (zn := replicate (Z.to_nat (len nm + 1)) x00).
  set (q := fresh (dom (<[p := zn]> (cells m)))).
  assert (Hpq : p <> q).
  { intros Heq. apply (is_fresh (dom (<[p := zn]> (cells m)))). fold q.
    rewrite <- Heq, dom_insert_L. set_solver. }
  rewrite H2, H3, Hd2, Hd3.
  replace (len nm <? 0) with false by lia.
  replace (len nm <? len nm) with false by lia.
  replace (len v <? 0) with false by lia.
  replace (len v <? len v) with false by lia.
  rewrite u32_small by lia.
  eexists _, _. split; [reflexivity|].
  unfold deref, store_bytes, store_byte.
  cbn [name_len value_len name value sb block offset remaining_bytes
       set_lens set_name set_value set_cursor set_remaining
       cells alloc_fail io_log].
  repeat split; try assumption; try reflexivity.
  - rewrite lookup_alter_ne, lookup_alter_eq, lookup_alter_eq by congruence.
    rewrite lookup_insert_ne, lookup_insert_eq by congruence.
    simpl. rewrite to_nat_len. apply filled_name.
  - rewrite lookup_alter_eq, lookup_alter_ne, lookup_alter_ne by congruence.
    rewrite lookup_insert_eq. simpl. apply filled_value.
  - lia.
Qed.

Lemma release_fields iter m :
  let '(iter', m') := xattr_iterator_release_buffer iter m in
  name iter' = None /\ value iter' = None /\
  sb iter' = sb iter /\ block iter' = block iter /\ offset iter' = offset iter /\
  remaining_bytes iter' = remaining_bytes iter /\
  name_len iter' = name_len iter /\ value_len iter' = value_len iter /\
  alloc_fail m' = alloc_fail m /\ io_log m' = io_log m.
Proof.
  unfold xattr_iterator_release_buffer. simpl.
  repeat split; destruct (name iter), (value iter); reflexivity.
Qed.

Lemma next_owns base iter m r iter' m' :
  owns base iter m ->
  squashfs_xattr_iterator_next E iter m = (r, iter', m') ->
  owns base iter' m'.
Proof.
  intros Ho H. unfold squashfs_xattr_iterator_next in H.
  destruct (xattr_iterator_release_buffer iter m) as [iter0 m0] eqn:Hrel.
  destruct (release_owns _ _ _ _ _ Ho Hrel) as (Hn & Hv & Hc & _).
  eapply read_next_owns; eauto.
Qed.

Lemma next_ready iter m iter' m' :
  0 <= remaining_bytes iter < 2 ^ 32 ->
  squashfs_xattr_iterator_next E iter m = (1, iter', m') ->
  sizeof_xattr_entry <= remaining_bytes iter /\
  0 <= name_len iter' <= 4096 /\ 0 <= value_len iter' <= 65536 /\
  name_len iter' + value_len iter' <= remaining_bytes iter - sizeof_xattr_entry /\
  remaining_bytes iter' =
    remaining_bytes iter - (sizeof_xattr_entry + name_len iter' + value_len iter') /\
  sb iter' = sb iter.
Proof.
  intros Hr H. unfold squashfs_xattr_iterator_next in H.
  pose proof (release_fields iter m) as Hf.
  destruct (xattr_iterator_release_buffer iter m) as [iter0 m0].
  destruct Hf as (_ & _ & Hs & _ & _ & Hrem & _).
  rewrite <- Hrem, <- Hs. apply (read_next_ready iter0 m0 iter' m'); [lia | exact H].
Qed.

Lemma next_entry base s blk off nm v blk' off' iter m :
  entry_at E s blk off nm v blk' off' ->
  owns base iter m -> alloc_fail m = [] ->
  sb iter = s -> block iter = blk -> offset iter = off ->
  8 + len nm + len v <= remaining_bytes iter < 2 ^ 32 ->
  exists iter' m',
    squashfs_xattr_iterator_next E iter m = (1, iter', m') /\
    name_len iter' = len nm /\ value_len iter' = len v /\
    deref m' (name iter') = nm ++ [x00] /\ deref m' (value iter') = v /\
    sb iter' = s /\ block iter' = blk' /\ offset iter' = off' /\
    remaining_bytes iter' = remaining_bytes iter - (8 + len nm + len v) /\
    alloc_fail m' = [] /\ owns base iter' m'.
Proof.
  intros He Ho Haf Hs Hb Hof Hrem.
  unfold squashfs_xattr_iterator_next.
  destruct (xattr_iterator_release_buffer iter m) as [iter0 m0] eqn:Hrel.
  destruct (release_owns _ _ _ _ _ Ho Hrel)
    as (Hn & Hv & Hc & Haf0 & _ & Hs0 & Hb0 & Hof0 & Hrem0).
  destruct (read_next_entry s blk off nm v blk' off' iter0 m0 He)
    as (iter' & m' & Hstep & Hrest); try congruence; try lia.
  exists iter', m'. split; [exact Hstep|].
  rewrite <- Hrem0.
  destruct Hrest as (? & ? & ? & ? & ? & ? & ? & ? & ?).
  repeat split; try assumption.
  eapply read_next_owns; eauto.
  all: eapply read_next_owns; eauto.
Qed.

(** With no budget left the step reports the end, after the release. *)
Lemma next_exhausted base iter m :
  owns base iter m -> remaining_bytes iter = 0 ->
  exists iter' m',
    squashfs_xattr_iterator_next E iter m = (0, iter', m') /\
    owns base iter' m' /\ alloc_fail m' = alloc_fail m /\ io_log m' = io_log m.
Proof.
  intros Ho Hrem. unfold squashfs_xattr_iterator_next.
  destruct (xattr_iterator_release_buffer iter m) as [iter0 m0] eqn:Hrel.
  destruct (release_owns _ _ _ _ _ Ho Hrel)
    as (Hn & Hv & Hc & Haf0 & Hio & Hs0 & Hb0 & Hof0 & Hrem0).
  exists iter0, m0.
  assert (Hstep : xattr_iterator_read_next E iter0 m0 = (0, iter0, m0)).
  { unfold xattr_iterator_read_next. rewrite Hrem0, Hrem. reflexivity. }
  split; [exact Hstep|]. split; [|split; assumption].
  eapply read_next_owns; eauto.
Qed.

(** A malformed entry ends the iteration with [-EIO]. *)
Lemma next_malformed base s blk off iter m :
  malformed_at E s blk off (remaining_bytes iter) ->
  owns base iter m ->
  sb iter = s -> block iter = blk -> offset iter = off ->
  0 <= remaining_bytes iter < 2 ^ 32 ->
  exists iter' m',
    squashfs_xattr_iterator_next E iter m = (- EIO, iter', m') /\ owns base iter' m'.
Proof.
  intros [Hnz Hbad] Ho Hs Hb Hof Hrem.
  destruct (squashfs_xattr_iterator_next E iter m) as [[r iter'] m'] eqn:Hstep.
  exists iter', m'. split; [|eapply next_owns; eauto]. f_equal. f_equal.
  unfold squashfs_xattr_iterator_next in Hstep.
  pose proof (release_fields iter m) as Hf.
  destruct (xattr_iterator_release_buffer iter m) as [iter0 m0].
  destruct Hf as (_ & _ & Hs0 & Hb0 & Hof0 & Hrem0 & _).
  destruct iter0 as [nl0 vl0 n0 v0 s0 blk0 off0 rem0]. simpl in *.
  subst s0 blk0 off0 rem0. rewrite Hs, Hb, Hof in Hstep.
  step_read_next Hstep.
  all: inversion Hstep; subst; clear Hstep; try reflexivity.
  all: exfalso; unfold sizeof_xattr_entry in *.
  all: destruct Hbad as [Hbad|[Hret Hbad]]; try lia.
  all: repeat match goal with
         | K : (_ || _) = false |- _ => apply orb_false_elim in K; destruct K
         end.
  all: match goal with
       | |- context [le32_to_cpu ?d 0] =>
           pose proof (le32_to_cpu_range d 0); pose proof (le32_to_cpu_range d 4)
       | K : context [le32_to_cpu ?d 0] |- _ =>
           pose proof (le32_to_cpu_range d 0); pose proof (le32_to_cpu_range d 4)
       | _ => idtac
       end.
  all: try rewrite (u32_small (remaining_bytes iter - 8)) in * by lia.
  all: try rewrite (u32_small (le32_to_cpu _ 0 + le32_to_cpu _ 4)) in * by lia.
  all: try lia.
Qed.

End Iterator.

(** ** The queries *)

Section Queries.

Variable E : env.

Lemma owns_none (iter : squashfs_xattr_iterator) (m : kmem) :
  name iter = None -> value iter = None -> owns (cells m) iter m.
Proof.
  intros Hn Hv. split; [|congruence]. unfold buffers. rewrite Hn, Hv. simpl.
  eapply framed_ext; [apply framed_refl | set_solver].
Qed.

(** Whatever [squashfs_xattr_iterator_start] returns, the iterator holds
    no buffer, the budget is an [unsigned int] and memory is as before. *)
Lemma start_any ino m r iter m' :
  squashfs_xattr_iterator_start E ino m = (r, iter, m') ->
  name iter = None /\ value iter = None /\ cells m' = cells m /\
  0 <= remaining_bytes iter < 2 ^ 32 /\
  alloc_fail m' = alloc_fail m /\ sb iter = i_sb ino.
Proof.
  unfold squashfs_xattr_iterator_start, read_metadata. cbv zeta.
  cbn [name_len value_len name value sb block offset remaining_bytes
       set_lens set_name set_value set_cursor set_remaining].
  intros H.
  repeat match type of H with
    | context [if ?c then _ else _] => destruct c eqn:?
    end.
  all: inversion H; subst; clear H; simpl.
  all: repeat split; try apply u32_range; try lia.
Qed.

Lemma start_absent ino m :
  s32 (i_xattr ino) = -1 \/ xattr_table (i_sb ino) = -1 ->
  squashfs_xattr_iterator_start E ino m = (0, Iter 0 0 None None (i_sb ino) 0 0 0, m).
Proof.
  intros H. unfold squashfs_xattr_iterator_start. cbv zeta.
  replace ((s32 (i_xattr ino) =? -1) || (xattr_table (i_sb ino) =? -1)) with true;
    [reflexivity|].
  symmetry. apply orb_true_iff. lia.
Qed.

Lemma start_header ino total blk off m :
  header_at E ino total blk off ->
  exists m',
    squashfs_xattr_iterator_start E ino m =
      (1, Iter 0 0 None None (i_sb ino) blk off (u32 (total - 4)), m') /\
    cells m' = cells m /\ alloc_fail m' = alloc_fail m.
Proof.
  intros (Hx & Ht & Hret & Htot & Hb & Ho).
  unfold squashfs_xattr_iterator_start, read_metadata. cbv zeta.
  cbn [name_len value_len name value sb block offset remaining_bytes
       set_lens set_name set_value set_cursor set_remaining].
  replace ((s32 (i_xattr ino) =? -1) || (xattr_table (i_sb ino) =? -1)) with false
    by (symmetry; apply orb_false_iff; lia).
  rewrite Hret, Htot, Hb, Ho. unfold sizeof_xattr_header. simpl.
  eexists. split; [reflexivity|]. split; reflexivity.
Qed.

(** The loops keep the ownership invariant on every way out. *)
Lemma listxattr_loop_owns base fuel : forall iter buffer pos size written m r,
  owns base iter m ->
  listxattr_loop E fuel iter buffer pos size written m = Some r ->
  owns base r.1.2 r.2.
Proof.
  induction fuel as [|fuel IH]; intros iter buffer pos size written m r Ho H;
    [discriminate|].
  simpl in H.
  destruct (squashfs_xattr_iterator_next E iter m) as [[err iter1] m1] eqn:Hstep.
  pose proof (next_owns E _ _ _ _ _ _ Ho Hstep) as Ho1.
  destruct (err =? 1); [|inversion H; subst; exact Ho1].
  destruct (filtered E (deref m1 (name iter1))); [eapply IH; eauto|].
  destruct buffer as [b|]; [|eapply IH; eauto].
  destruct (size <? name_len iter1 + 1); [inversion H; subst; exact Ho1|].
  eapply IH; eauto.
Qed.

Lemma getxattr_loop_owns base fuel : forall iter qname buffer size m r,
  owns base iter m ->
  getxattr_loop E fuel iter qname buffer size m = Some r ->
  owns base r.1.2 r.2.
Proof.
  induction fuel as [|fuel IH]; intros iter qname buffer size m r Ho H;
    [discriminate|].
  simpl in H.
  destruct (squashfs_xattr_iterator_next E iter m) as [[err iter1] m1] eqn:Hstep.
  pose proof (next_owns E _ _ _ _ _ _ Ho Hstep) as Ho1.
  destruct (err =? 1); [|inversion H; subst; exact Ho1].
  destruct (negb _); [eapply IH; eauto|].
  destruct buffer as [b|]; [|inversion H; subst; exact Ho1].
  destruct (size <? value_len iter1); inversion H; subst; exact Ho1.
Qed.

(** The bound [loop_bound] is enough: the loops come to an end. *)
Lemma listxattr_loop_total fuel : forall iter buffer pos size written m,
  0 <= remaining_bytes iter < 2 ^ 32 ->
  remaining_bytes iter / 8 < Z.of_nat fuel ->
  is_Some (listxattr_loop E fuel iter buffer pos size written m).
Proof.
  induction fuel as [|fuel IH]; intros iter buffer pos size written m Hr Hf.
  - exfalso. assert (0 <= remaining_bytes iter / 8) by (apply Z.div_pos; lia). lia.
  - simpl.
    destruct (squashfs_xattr_iterator_next E iter m) as [[err iter1] m1] eqn:Hstep.
    destruct (err =? 1) eqn:Herr; [|eauto].
    apply Z.eqb_eq in Herr. subst err.
    destruct (next_ready E _ _ _ _ Hr Hstep) as (H8 & Hnl & Hvl & Htot & Hrem & _).
    unfold sizeof_xattr_entry in *.
    assert (Hr1 : 0 <= remaining_bytes iter1 < 2 ^ 32) by lia.
    assert (Hf1 : remaining_bytes iter1 / 8 < Z.of_nat fuel).
    { assert (remaining_bytes iter1 / 8 <= (remaining_bytes iter - 8) / 8)
        by (apply Z.div_le_mono; lia).
      replace (remaining_bytes iter - 8) with (remaining_bytes iter + (-1) * 8) in * by lia.
      rewrite Z.div_add in * by lia. lia. }
    destruct (filtered E (deref m1 (name iter1))); [apply IH; assumption|].
    destruct buffer as [b|]; [|apply IH; assumption].
    destruct (size <? name_len iter1 + 1); [eauto | apply IH; assumption].
Qed.

Lemma getxattr_loop_total fuel : forall iter qname buffer size m,
  0 <= remaining_bytes iter < 2 ^ 32 ->
  remaining_bytes iter / 8 < Z.of_nat fuel ->
  is_Some (getxattr_loop E fuel iter qname buffer size m).
Proof.
  induction fuel as [|fuel IH]; intros iter qname buffer size m Hr Hf.
  - exfalso. assert (0 <= remaining_bytes iter / 8) by (apply Z.div_pos; lia). lia.
  - simpl.
    destruct (squashfs_xattr_iterator_next E iter m) as [[err iter1] m1] eqn:Hstep.
    destruct (err =? 1) eqn:Herr; [|eauto].
    apply Z.eqb_eq in Herr. subst err.
    destruct (next_ready E _ _ _ _ Hr Hstep) as (H8 & Hnl & Hvl & Htot & Hrem & _).
    unfold sizeof_xattr_entry in *.
    assert (Hr1 : 0 <= remaining_bytes iter1 < 2 ^ 32) by lia.
    assert (Hf1 : remaining_bytes iter1 / 8 < Z.of_nat fuel).
    { assert (remaining_bytes iter1 / 8 <= (remaining_bytes iter - 8) / 8)
        by (apply Z.div_le_mono; lia).
      replace (remaining_bytes iter - 8) with (remaining_bytes iter + (-1) * 8) in * by lia.
      rewrite Z.div_add in * by lia. lia. }
    destruct (negb _); [apply IH; assumption|].
    destruct buffer as [b|]; [|eauto].
    destruct (size <? value_len iter1); eauto.
Qed.

Lemma loop_bound_enough (iter : squashfs_xattr_iterator) :
  0 <= remaining_bytes iter ->
  remaining_bytes iter / 8 < Z.of_nat (loop_bound iter).
Proof.
  intros H. unfold loop_bound, sizeof_xattr_entry.
  assert (0 <= remaining_bytes iter / 8) by (apply Z.div_pos; lia). lia.
Qed.

Lemma ready_steps_budget n iter m iter' m' :
  ready_steps E n iter m iter' m' ->
  0 <= remaining_bytes iter < 2 ^ 32 ->
  0 <= remaining_bytes iter' /\ remaining_bytes iter' + 8 * Z.of_nat n <= remaining_bytes iter.
Proof.
  induction 1 as [|n iter m iter1 m1 iter2 m2 Hstep Hrest IH]; intros Hr; [lia|].
  destruct (next_ready E _ _ _ _ Hr Hstep) as (H8 & Hnl & Hvl & Htot & Hrem & _).
  unfold sizeof_xattr_entry in *.
  destruct IH; lia.
Qed.

Lemma listxattr_returns d buffer size m :
  exists r, squashfs_listxattr E d buffer size m = Some r /\ cells r.2 = cells m.
Proof.
  unfold squashfs_listxattr.
  destruct (squashfs_xattr_iterator_start E (d_inode d) m) as [[err iter] m1] eqn:Hs.
  destruct (start_any _ _ _ _ _ Hs) as (Hn & Hv & Hc & Hr & _).
  destruct (err <=? 0); [eexists; split; [reflexivity | exact Hc]|].
  destruct (listxattr_loop_total (loop_bound iter) iter buffer 0 size 0 m1 Hr)
    as [[[[[err2 written] buf2] iter2] m2] Hloop];
    [apply loop_bound_enough; lia|].
  rewrite Hloop.
  assert (Ho1 : owns (cells m) iter m1)
    by (rewrite <- Hc; apply owns_none; assumption).
  pose proof (listxattr_loop_owns (cells m) _ _ _ _ _ _ _ _ Ho1 Hloop) as Ho.
  unfold squashfs_xattr_iterator_end.
  destruct (xattr_iterator_release_buffer iter2 m2) as [iter3 m3] eqn:Hrel.
  destruct (release_owns _ _ _ _ _ Ho Hrel) as (_ & _ & Hc3 & _).
  eexists; split; [reflexivity | exact Hc3].
Qed.

Lemma getxattr_returns d qname buffer size m :
  exists r, squashfs_getxattr E d qname buffer size m = Some r /\ cells r.2 = cells m.
Proof.
  unfold squashfs_getxattr.
  destruct (squashfs_xattr_iterator_start E (d_inode d) m) as [[err iter] m1] eqn:Hs.
  destruct (start_any _ _ _ _ _ Hs) as (Hn & Hv & Hc & Hr & _).
  assert (Ho1 : owns (cells m) iter m1)
    by (rewrite <- Hc; apply owns_none; assumption).
  destruct (err <? 0); [eexists; split; [reflexivity | exact Hc]|].
  unfold squashfs_xattr_iterator_end.
  destruct (err =? 0).
  - destruct (xattr_iterator_release_buffer iter m1) as [iter3 m3] eqn:Hrel.
    destruct (release_owns _ _ _ _ _ Ho1 Hrel) as (_ & _ & Hc3 & _).
    eexists; split; [reflexivity | exact Hc3].
  - destruct (getxattr_loop_total (loop_bound iter) iter qname buffer size m1 Hr)
      as [[[[err2 buf2] iter2] m2] Hloop];
      [apply loop_bound_enough; lia|].
    rewrite Hloop.
    pose proof (getxattr_loop_owns (cells m) _ _ _ _ _ _ _ Ho1 Hloop) as Ho.
    destruct (xattr_iterator_release_buffer iter2 m2) as [iter3 m3] eqn:Hrel.
    destruct (release_owns _ _ _ _ _ Ho Hrel) as (_ & _ & Hc3 & _).
    eexists; split; [reflexivity | exact Hc3].
Qed.

(** *** Queries on a stored set *)

Lemma required_size_nonneg (es : list entry) : 0 <= required_size E es.
Proof.
  induction es as [|[nm v] es IH]; simpl; [lia|].
  pose proof (len_nonneg nm). destruct (passes E nm); lia.
Qed.

Lemma listing_length (es : list entry) : len (listing E es) = required_size E es.
Proof.
  induction es as [|[nm v] es IH]; simpl; [reflexivity|].
  rewrite len_app, IH. destruct (passes E nm); [|reflexivity].
  rewrite len_app. reflexivity.
Qed.

Lemma stored_budget s blk off B es blk' off' B' :
  stored E s blk off B es blk' off' B' ->
  B' + 8 * Z.of_nat (length es) <= B /\ B' + required_size E es <= B /\
  (es <> [] -> 0 <= B' /\ B < 2 ^ 32).
Proof.
  induction 1 as [|blk off B nm v blk1 off1 es blk' off' B' He Hle Hlt Hst IH].
  - simpl. repeat split; try lia; congruence.
  - destruct IH as (IH1 & IH2 & IH3). simpl length. simpl required_size.
    pose proof (len_nonneg nm). pose proof (len_nonneg v).
    pose proof (required_size_nonneg es).
    assert (0 <= B').
    { destruct es; [inversion Hst; subst; lia | apply IH3; congruence]. }
    destruct (passes E nm); repeat split; lia.
Qed.

Lemma filtered_passes (nm : list byte) : filtered E (nm ++ [x00]) = negb (passes E nm).
Proof. unfold passes. rewrite negb_involutive. reflexivity. Qed.

(** The loop of [squashfs_listxattr] over the entries of a stored set:
    it adds up [required_size] and, given a buffer with room, writes
    [listing]. *)
Lemma listxattr_loop_stored s base es blk off B blk' off' B' :
  stored E s blk off B es blk' off' B' ->
  forall fuel iter buffer pos size written m,
  owns base iter m -> alloc_fail m = [] ->
  sb iter = s -> block iter = blk -> offset iter = off -> remaining_bytes iter = B ->
  0 <= written -> written + required_size E es < 2 ^ 63 ->
  (forall b, buffer = Some b ->
     required_size E es <= size /\ 0 <= pos /\ pos + required_size E es <= len b) ->
  exists iter' m',
    owns base iter' m' /\ alloc_fail m' = [] /\
    sb iter' = s /\ block iter' = blk' /\ offset iter' = off' /\
    remaining_bytes iter' = B' /\
    listxattr_loop E (length es + fuel) iter buffer pos size written m =
    listxattr_loop E fuel iter'
      (option_map (fun b => memcpy b (Z.to_nat pos) (listing E es)) buffer)
      (if buffer then pos + required_size E es else pos)
      (if buffer then size - required_size E es else size)
      (written + required_size E es) m'.
Proof.
  induction 1 as [|blk off B nm v blk1 off1 es blk' off' B' He Hle Hlt Hst IH];
    intros fuel iter buffer pos size written m Ho Haf Hs Hb Hof Hrem Hw Hw63 Hbuf.
  - exists iter, m. splits; try assumption. simpl.
    rewrite !Z.add_0_r, Z.sub_0_r.
    destruct buffer as [b|]; simpl; [rewrite memcpy_nil|]; reflexivity.
  - pose proof (len_nonneg nm) as Hnm. pose proof (len_nonneg v) as Hv.
    pose proof (required_size_nonneg es) as Hrs.
    destruct (next_entry E base s blk off nm v blk1 off1 iter m He Ho Haf Hs Hb Hof
                ltac:(lia))
      as (iter1 & m1 & Hstep & Hnl & Hvl & Hdn & Hdv & Hs1 & Hb1 & Hof1 & Hrem1 & Haf1 & Ho1).
    simpl length. simpl listxattr_loop. rewrite Hstep. simpl (1 =? 1).
    cbv iota. rewrite Hdn, filtered_passes, Hnl.
    simpl required_size in *. simpl listing.
    destruct (passes E nm) eqn:Hp; simpl negb; cbv iota.
    + rewrite ssize_t_small by lia.
      destruct buffer as [b|].
      * destruct (Hbuf b eq_refl) as (Hsz & Hpos & Hroom).
        replace (size <? len nm + 1) with false by lia.
        rewrite to_nat_len, take_app_length.
        replace (Z.to_nat (pos + len nm)) with (Z.to_nat pos + length nm)%nat
          by (unfold len; lia).
        rewrite memcpy_memcpy by (unfold len in *; lia).
        destruct (IH fuel iter1
                    (Some (memcpy b (Z.to_nat pos) (nm ++ [x00])))
                    (pos + (len nm + 1)) (size - (len nm + 1))
                    (written + (len nm + 1)) m1)
          as (iter' & m' & Ho' & Haf' & Hs' & Hb' & Hof' & Hrem' & Heq);
          try assumption; try lia.
        { intros b' [= <-]. unfold len in *.
          rewrite memcpy_length by (rewrite length_app; simpl; lia). lia. }
        exists iter', m'. splits; try assumption.
        rewrite Heq. simpl option_map.
        replace (Z.to_nat (pos + (len nm + 1)))
          with (Z.to_nat pos + length (nm ++ [x00]))%nat
          by (rewrite length_app; unfold len; simpl; lia).
        rewrite memcpy_memcpy by (unfold len in *; lia).
        f_equal; try lia.
      * destruct (IH fuel iter1 None pos size (written + (len nm + 1)) m1)
          as (iter' & m' & Ho' & Haf' & Hs' & Hb' & Hof' & Hrem' & Heq);
          try assumption; try lia; try discriminate.
        exists iter', m'. splits; try assumption.
        rewrite Heq. simpl. f_equal. lia.
    + destruct (IH fuel iter1 buffer pos size written m1)
        as (iter' & m' & Ho' & Haf' & Hs' & Hb' & Hof' & Hrem' & Heq);
        try assumption; try lia.
      exists iter', m'. splits; assumption.
Qed.

Lemma stored_fuel s blk off B es blk' off' B' iter :
  stored E s blk off B es blk' off' B' -> 0 <= B' -> remaining_bytes iter = B ->
  exists k, loop_bound iter = (length es + S k)%nat.
Proof.
  intros Hst HB' Hrem.
  destruct (stored_budget _ _ _ _ _ _ _ _ Hst) as (H8 & _).
  exists (Z.to_nat (B / 8) - length es)%nat.
  unfold loop_bound, sizeof_xattr_entry. rewrite Hrem.
  assert (Z.of_nat (length es) <= B / 8) by (apply Z.div_le_lower_bound; lia).
  lia.
Qed.

Lemma header_total ino total blk off :
  header_at E ino total blk off -> 0 <= total < 2 ^ 32.
Proof. intros (_ & _ & _ & <- & _). apply le32_to_cpu_range. Qed.

(** [squashfs_listxattr] on a well-formed set, without a buffer or with
    one that has room. *)
Lemma listxattr_well_formed d es buffer size m :
  well_formed E (d_inode d) es -> alloc_fail m = [] ->
  (forall b, buffer = Some b ->
     required_size E es <= size /\ required_size E es <= len b) ->
  exists m',
    squashfs_listxattr E d buffer size m =
      Some (required_size E es,
            option_map (fun b => memcpy b 0 (listing E es)) buffer, m') /\
    cells m' = cells m /\ alloc_fail m' = [].
Proof.
  intros [[Habs ->]|(total & blk & off & blk' & off' & Hh & H4 & Hst)] Haf Hbuf;
    unfold squashfs_listxattr.
  - rewrite start_absent by exact Habs. simpl.
    exists m. splits; try reflexivity; try assumption.
    destruct buffer; simpl; [rewrite memcpy_nil|]; reflexivity.
  - pose proof (header_total _ _ _ _ Hh) as Ht.
    destruct (start_header _ _ _ _ m Hh) as (m1 & Hs & Hc1 & Haf1).
    rewrite Hs. simpl (1 <=? 0). cbv iota.
    rewrite u32_small by lia.
    set (iter := Iter 0 0 None None (i_sb (d_inode d)) blk off (total - 4)).
    destruct (stored_budget _ _ _ _ _ _ _ _ Hst) as (_ & Hrs & _).
    pose proof (required_size_nonneg es) as Hrs0.
    destruct (stored_fuel _ _ _ _ _ _ _ _ iter Hst ltac:(lia) eq_refl) as [k Hk].
    rewrite Hk.
    assert (Ho1 : owns (cells m) iter m1)
      by (rewrite <- Hc1; apply owns_none; reflexivity).
    destruct (listxattr_loop_stored _ (cells m) _ _ _ _ _ _ _ Hst (S k) iter buffer 0 size 0 m1)
      as (iter' & m' & Ho' & Haf' & Hs' & Hb' & Hof' & Hrem' & Heq);
      try assumption; try reflexivity; try congruence; try lia.
    { intros b Hb. destruct (Hbuf b Hb). lia. }
    rewrite Heq.
    destruct (next_exhausted E _ _ _ Ho' Hrem') as (iter2 & m2 & Hx & Ho2 & Haf2 & _).
    simpl listxattr_loop. rewrite Hx. simpl (0 =? 1). cbv iota.
    unfold squashfs_xattr_iterator_end.
    destruct (xattr_iterator_release_buffer iter2 m2) as [iter3 m3] eqn:Hrel.
    destruct (release_owns _ _ _ _ _ Ho2 Hrel) as (_ & _ & Hc3 & Haf3 & _).
    exists m3. splits; try congruence.
    simpl (0 <? 0). cbv iota. rewrite Z.add_0_l. reflexivity.
Qed.

(** The loop of [squashfs_getxattr] over the entries of a stored set
    stops at the first entry whose name compares equal. *)
Lemma getxattr_loop_stored s base es blk off B blk' off' B' :
  stored E s blk off B es blk' off' B' ->
  forall fuel iter qname buffer size m,
  owns base iter m -> alloc_fail m = [] ->
  sb iter = s -> block iter = blk -> offset iter = off -> remaining_bytes iter = B ->
  match List.find (name_matches qname) es with
  | Some e =>
      exists iter' m',
        owns base iter' m' /\ alloc_fail m' = [] /\
        getxattr_loop E (length es + fuel) iter qname buffer size m =
        Some (found_result buffer size e.2, iter', m')
  | None =>
      exists iter' m',
        owns base iter' m' /\ alloc_fail m' = [] /\
        sb iter' = s /\ block iter' = blk' /\ offset iter' = off' /\
        remaining_bytes iter' = B' /\
        getxattr_loop E (length es + fuel) iter qname buffer size m =
        getxattr_loop E fuel iter' qname buffer size m'
  end.
Proof.
  induction 1 as [|blk off B nm v blk1 off1 es blk' off' B' He Hle Hlt Hst IH];
    intros fuel iter qname buffer size m Ho Haf Hs Hb Hof Hrem.
  - simpl. exists iter, m. splits; try assumption. reflexivity.
  - pose proof (len_nonneg nm) as Hnm. pose proof (len_nonneg v) as Hv.
    destruct (next_entry E base s blk off nm v blk1 off1 iter m He Ho Haf Hs Hb Hof
                ltac:(lia))
      as (iter1 & m1 & Hstep & Hnl & Hvl & Hdn & Hdv & Hs1 & Hb1 & Hof1 & Hrem1 & Haf1 & Ho1).
    simpl length. simpl getxattr_loop. rewrite Hstep. simpl (1 =? 1). cbv iota.
    rewrite Hdn, Hnl, Hvl, Hdv, to_nat_len.
    simpl List.find. unfold name_matches at 1. simpl fst.
    destruct (strncmp qname (nm ++ [x00]) (length nm) =? 0) eqn:Hcmp; simpl negb; cbv iota.
    + exists iter1, m1. splits; try assumption.
      destruct He as (_ & _ & _ & _ & Hv64 & _).
      rewrite s32_small by lia. rewrite to_nat_len, take_ge by lia.
      unfold found_result. simpl snd.
      destruct buffer as [b|]; [|reflexivity].
      destruct (size <? len v); reflexivity.
    + apply IH; try assumption. lia.
Qed.

(** [squashfs_getxattr] on a well-formed set. *)
Lemma getxattr_well_formed d es qname buffer size m :
  well_formed E (d_inode d) es -> alloc_fail m = [] ->
  exists m',
    squashfs_getxattr E d qname buffer size m =
      Some (match List.find (name_matches qname) es with
            | Some e => found_result buffer size e.2
            | None => (- ENODATA, buffer)
            end, m') /\
    cells m' = cells m /\ alloc_fail m' = [].
Proof.
  intros [[Habs ->]|(total & blk & off & blk' & off' & Hh & H4 & Hst)] Haf;
    unfold squashfs_getxattr.
  - rewrite start_absent by exact Habs. simpl.
    exists m. splits; try reflexivity; assumption.
  - pose proof (header_total _ _ _ _ Hh) as Ht.
    destruct (start_header _ _ _ _ m Hh) as (m1 & Hs & Hc1 & Haf1).
    rewrite Hs. simpl (1 <? 0). simpl (1 =? 0). cbv iota.
    rewrite u32_small by lia.
    set (iter := Iter 0 0 None None (i_sb (d_inode d)) blk off (total - 4)).
    destruct (stored_fuel _ _ _ _ _ _ _ _ iter Hst ltac:(lia) eq_refl) as [k Hk].
    rewrite Hk.
    assert (Ho1 : owns (cells m) iter m1)
      by (rewrite <- Hc1; apply owns_none; reflexivity).
    pose proof (getxattr_loop_stored _ (cells m) _ _ _ _ _ _ _ Hst (S k) iter qname
                  buffer size m1 Ho1 ltac:(congruence) eq_refl eq_refl eq_refl eq_refl)
      as Hloop.
    unfold squashfs_xattr_iterator_end.
    destruct (List.find (name_matches qname) es) as [e|].
    + destruct Hloop as (iter' & m' & Ho' & Haf' & Heq). rewrite Heq.
      destruct (xattr_iterator_release_buffer iter' m') as [iter3 m3] eqn:Hrel.
      destruct (release_owns _ _ _ _ _ Ho' Hrel) as (_ & _ & Hc3 & Haf3 & _).
      exists m3. splits; try congruence.
      destruct (found_result buffer size e.2). reflexivity.
    + destruct Hloop as (iter' & m' & Ho' & Haf' & Hs' & Hb' & Hof' & Hrem' & Heq).
      rewrite Heq.
      destruct (next_exhausted E _ _ _ Ho' Hrem') as (iter2 & m2 & Hx & Ho2 & Haf2 & _).
      simpl getxattr_loop. rewrite Hx. simpl (0 =? 1). cbv iota.
      destruct (xattr_iterator_release_buffer iter2 m2) as [iter3 m3] eqn:Hrel.
      destruct (release_owns _ _ _ _ _ Ho2 Hrel) as (_ & _ & Hc3 & Haf3 & _).
      exists m3. splits; try congruence. reflexivity.
Qed.

End Queries.

(** ** Names *)

Lemma byte_val_inj (a b : byte) : byte_val a = byte_val b -> a = b.
Proof.
  unfold byte_val. intros H. apply N2Z.inj in H.
  pose proof (Byte.of_to_N a) as Ha. rewrite H, Byte.of_to_N in Ha. congruence.
Qed.

(** For a stored name without NUL bytes the comparison succeeds exactly
    when the name is a prefix of the query. *)
Lemma strncmp_zero_iff_prefix (nm qname : list byte) :
  x00 ∉ nm ->
  strncmp qname (nm ++ [x00]) (length nm) = 0 <-> take (length nm) qname = nm.
Proof.
  revert qname. induction nm as [|c nm IH]; intros qname Hnul; simpl.
  - rewrite take_0. tauto.
  - assert (Hc : c <> x00) by (intros ->; apply Hnul; left).
    assert (Hnm : x00 ∉ nm) by (intros H; apply Hnul; right; exact H).
    destruct (Byte.eqb (hd x00 qname) c) eqn:Heq; simpl.
    + apply Byte.byte_dec_bl in Heq.
      destruct qname as [|c1 q]; simpl in Heq; [congruence|]. subst c1. simpl.
      destruct (Byte.eqb c x00) eqn:Hz; [apply Byte.byte_dec_bl in Hz; congruence|].
      rewrite IH by exact Hnm. split; [intros ->; reflexivity | intros [= ->]; reflexivity].
    + assert (Hne : hd x00 qname <> c).
      { intros H. rewrite H, byte_eqb_refl in Heq. discriminate. }
      split.
      * intros H. exfalso. apply Hne. apply byte_val_inj. lia.
      * intros H. exfalso. apply Hne. destruct qname; simpl in *; congruence.
Qed.

Lemma find_name (qname : list byte) (es : list entry) (e0 : entry) :
  In e0 es -> name_matches qname e0 = true ->
  exists e, List.find (name_matches qname) es = Some e /\
            In e es /\ name_matches qname e = true.
Proof.
  intros Hin Hm.
  destruct (List.find (name_matches qname) es) as [e|] eqn:Hf.
  - exists e. split; [reflexivity|]. apply (List.find_some _ _ Hf).
  - pose proof (List.find_none _ _ Hf e0 Hin). congruence.
Qed.

Lemma name_matches_self (nm extra v : list byte) :
  name_matches (nm ++ extra) (nm, v) = true.
Proof.
  unfold name_matches. simpl. rewrite strncmp_prefix. reflexivity.
Qed.

(** Without the capability the filter lets pass exactly the names that
    start with the trusted prefix. *)
Lemma unprivileged_passes (E : env) (nm : list byte) :
  capable E CAP_SYS_ADMIN = false ->
  passes E nm = (strncmp nm XATTR_TRUSTED_PREFIX 8 =? 0).
Proof.
  intros H. unfold passes, filtered. rewrite H, negb_involutive.
  rewrite strncmp_nul_l. reflexivity.
Qed.

Section Privilege.

Variable E : env.
Hypothesis privileged : capable E CAP_SYS_ADMIN = true.

Lemma privileged_passes (nm : list byte) : passes E nm = true.
Proof. unfold passes, filtered. rewrite privileged. reflexivity. Qed.

Lemma privileged_required_size (es : list entry) :
  required_size E es = all_names_size es.
Proof.
  induction es as [|[nm v] es IH]; simpl; [reflexivity|].
  rewrite privileged_passes, IH. reflexivity.
Qed.

Lemma privileged_listing (es : list entry) : listing E es = all_names es.
Proof.
  induction es as [|[nm v] es IH]; simpl; [reflexivity|].
  rewrite privileged_passes, IH. reflexivity.
Qed.

End Privilege.

(** [squashfs_listxattr] on a set with a malformed entry, when the
    listing gets as far as that entry. *)
Lemma listxattr_malformed (E : env) d es buffer size m :
  malformed_after E (d_inode d) es -> alloc_fail m = [] ->
  (forall b, buffer = Some b ->
     required_size E es <= size /\ required_size E es <= len b) ->
  exists buffer' m',
    squashfs_listxattr E d buffer size m = Some (- EIO, buffer', m') /\
    cells m' = cells m.
Proof.
  intros (total & blk & off & blk' & off' & B' & Hh & Hst & Hbad) Haf Hbuf.
  unfold squashfs_listxattr.
  pose proof (header_total _ _ _ _ _ Hh) as Ht.
  destruct (start_header _ _ _ _ _ m Hh) as (m1 & Hs & Hc1 & Haf1).
  rewrite Hs. simpl (1 <=? 0). cbv iota.
  pose proof (u32_range (total - 4)) as Hu.
  set (iter := Iter 0 0 None None (i_sb (d_inode d)) blk off (u32 (total - 4))).
  destruct (stored_budget _ _ _ _ _ _ _ _ _ Hst) as (H8 & Hrs & Hne).
  pose proof (required_size_nonneg E es) as Hrs0.
  assert (HB' : 0 <= B' < 2 ^ 32).
  { destruct es; [inversion Hst; subst; lia | destruct Hne; [congruence | lia]]. }
  destruct (stored_fuel _ _ _ _ _ _ _ _ _ iter Hst ltac:(lia) eq_refl) as [k Hk].
  rewrite Hk.
  assert (Ho1 : owns (cells m) iter m1)
    by (rewrite <- Hc1; apply owns_none; reflexivity).
  destruct (listxattr_loop_stored _ _ (cells m) _ _ _ _ _ _ _ Hst (S k) iter buffer 0 size 0 m1)
    as (iter' & m' & Ho' & Haf' & Hs' & Hb' & Hof' & Hrem' & Heq);
    try assumption; try reflexivity; try congruence; try lia.
  { intros b Hb. destruct (Hbuf b Hb). lia. }
  rewrite Heq.
  destruct (next_malformed E (cells m) _ _ _ iter' m' ltac:(rewrite Hrem'; exact Hbad)
              Ho' Hs' Hb' Hof' ltac:(lia))
    as (iter2 & m2 & Hx & Ho2).
  simpl listxattr_loop. rewrite Hx.
  replace (- EIO =? 1) with false by reflexivity. cbv iota.
  unfold squashfs_xattr_iterator_end.
  destruct (xattr_iterator_release_buffer iter2 m2) as [iter3 m3] eqn:Hrel.
  destruct (release_owns _ _ _ _ _ Ho2 Hrel) as (_ & _ & Hc3 & _).
  eexists _, m3. split; [|exact Hc3].
  replace (- EIO <? 0) with true by reflexivity. reflexivity.
Qed.

Import Examples.

(** ** The example images *)

Lemma img_abc_well_formed (E : env) :
  squashfs_read_metadata E = flat_read ->
  well_formed E (d_inode (on_image img_abc)) [(bytes_of "abc", [x2a])].
Proof.
  intros Hrd. right. exists 16, 0, 4, 0, 16.
  unfold header_at, entry_at. rewrite Hrd.
  split; [vm_compute; splits; congruence|].
  split; [lia|].
  eapply stored_cons; [| | |apply stored_nil].
  - unfold entry_at. rewrite Hrd. vm_compute. splits; congruence.
  - vm_compute. congruence.
  - lia.
Qed.

Lemma img_two_well_formed (E : env) :
  squashfs_read_metadata E = flat_read ->
  well_formed E (d_inode (on_image img_two)) es_two.
Proof.
  intros Hrd. right. exists 38, 0, 4, 0, 38.
  unfold header_at. rewrite Hrd.
  split; [vm_compute; splits; congruence|].
  split; [lia|].
  eapply (stored_cons _ _ 0 4 34 _ _ 0 22); [| | |eapply stored_cons; [| | |apply stored_nil]].
  all: try (unfold entry_at; rewrite Hrd; vm_compute; splits; congruence).
  all: try (vm_compute; congruence).
Qed.

Lemma img_shadow_well_formed (E : env) :
  squashfs_read_metadata E = flat_read ->
  well_formed E (d_inode (on_image img_shadow)) es_shadow.
Proof.
  intros Hrd. right. exists 28, 0, 4, 0, 28.
  unfold header_at. rewrite Hrd.
  split; [vm_compute; splits; congruence|].
  split; [lia|].
  eapply (stored_cons _ _ 0 4 24 _ _ 0 16); [| | |eapply stored_cons; [| | |apply stored_nil]].
  all: try (unfold entry_at; rewrite Hrd; vm_compute; splits; congruence).
  all: try (vm_compute; congruence).
Qed.

Lemma img_bad_second_malformed :
  malformed_after E_root (d_inode (on_image img_bad_second)) [(bytes_of "abc", [x2a])].
Proof.
  exists 24, 0, 4, 0, 16, 8.
  split; [vm_compute; splits; congruence|].
  split.
  - eapply stored_cons; [| | |apply stored_nil].
    + vm_compute. splits; congruence.
    + vm_compute. congruence.
    + vm_compute. reflexivity.
  - split; [lia|]. right. vm_compute. split; [congruence|]. left. reflexivity.
Qed.

Lemma img_long_name_malformed :
  malformed_after E_root (d_inode (on_image img_long_name)) [].
Proof.
  exists 16, 0, 4, 0, 4, 12.
  split; [vm_compute; splits; congruence|].
  split; [apply stored_nil|].
  split; [lia|]. right. vm_compute. split; [congruence|]. left. reflexivity.
Qed.

(** ** What the code does where the claims expect otherwise *)

(** A short read of the entry header: the step returns 0. *)
Lemma read_next_short_header (E : env) iter m :
  sizeof_xattr_entry <= remaining_bytes iter ->
  0 <= rd_ret (squashfs_read_metadata E (sb iter) (block iter) (offset iter)
                 sizeof_xattr_entry) < sizeof_xattr_entry ->
  (xattr_iterator_read_next E iter m).1.1 = 0.
Proof.
  intros Hrem Hret. unfold xattr_iterator_read_next, read_metadata. cbv zeta.
  unfold sizeof_xattr_entry in *.
  replace (remaining_bytes iter =? 0) with false by lia.
  replace (remaining_bytes iter <? 8) with false by lia.
  destruct (rd_ret _ <? 0) eqn:H0; [lia|].
  destruct (rd_ret _ <? 8) eqn:H8; [reflexivity | lia].
Qed.

(** Whatever ends the loop of [squashfs_getxattr] other than a match,
    the caller gets [-ENODATA]. *)
Lemma getxattr_loop_hides_errors (E : env) fuel iter qname buffer size m :
  (squashfs_xattr_iterator_next E iter m).1.1 <> 1 ->
  exists iter' m',
    getxattr_loop E (S fuel) iter qname buffer size m = Some (- ENODATA, buffer, iter', m').
Proof.
  intros H. simpl.
  destruct (squashfs_xattr_iterator_next E iter m) as [[err iter'] m']. simpl in H.
  replace (err =? 1) with false by lia. eauto.
Qed.

(** A header whose [size] is below 4 seats the iterator with a budget of
    nearly [2 ^ 32]. *)
Lemma start_undersized_header (E : env) ino total blk off m :
  header_at E ino total blk off -> total < 4 ->
  exists m',
    squashfs_xattr_iterator_start E ino m =
      (1, Iter 0 0 None None (i_sb ino) blk off (total + 2 ^ 32 - 4), m').
Proof.
  intros Hh Ht. pose proof (header_total _ _ _ _ _ Hh).
  destruct (start_header E _ _ _ _ m Hh) as (m' & Hs & _).
  exists m'. rewrite Hs. repeat f_equal.
  unfold u32. replace (total - 4) with (total + 2 ^ 32 - 4 + (-1) * 2 ^ 32) by lia.
  rewrite Z.mod_add by lia. apply Z.mod_small. lia.
Qed.

(** The locator as the code decodes it, for a locator below [2 ^ 31] and
    a table base that leaves room: the block is the base plus the upper
    bits and the offset the lower 13 bits. *)
Lemma start_decodes_low_locator (E : env) ino m :
  0 <= i_xattr ino < 2 ^ 31 -> 0 <= xattr_table (i_sb ino) ->
  xattr_table (i_sb ino) + Z.shiftr (i_xattr ino) 13 < 2 ^ 64 ->
  io_log (squashfs_xattr_iterator_start E ino m).2 =
    io_log m ++ [(xattr_table (i_sb ino) + Z.shiftr (i_xattr ino) 13,
                  Z.land (i_xattr ino) 8191, 4)] /\
  0 <= Z.land (i_xattr ino) 8191 < 8192.
Proof.
  intros Hx Ht Hsum.
  assert (Hs : 0 <= Z.shiftr (i_xattr ino) 13) by (apply Z.shiftr_nonneg; lia).
  split.
  - unfold squashfs_xattr_iterator_start, read_metadata. cbv zeta.
    cbn [name_len value_len name value sb block offset remaining_bytes
         set_lens set_name set_value set_cursor set_remaining].
    rewrite s32_small by lia.
    replace ((i_xattr ino =? -1) || (xattr_table (i_sb ino) =? -1)) with false
      by (symmetry; apply orb_false_iff; lia).
    unfold u64. rewrite Z.mod_small by lia.
    repeat match goal with |- context [if ?c then _ else _] => destruct c end;
      reflexivity.
  - change 8191 with (Z.ones 13). rewrite Z.land_ones by lia.
    apply Z.mod_pos_bound. lia.
Qed.

(** No attribute set: the queries answer without a read. *)
Lemma no_xattrs_queries (E : env) d qname buffer size m :
  no_xattrs (d_inode d) ->
  squashfs_listxattr E d buffer size m = Some (0, buffer, m) /\
  squashfs_getxattr E d qname buffer size m = Some (- ENODATA, buffer, m).
Proof.
  intros H. unfold squashfs_listxattr, squashfs_getxattr.
  rewrite start_absent by exact H. simpl. destruct m. split; reflexivity.
Qed.

(** An entry that no earlier entry shadows is the one the lookup finds. *)
Lemma find_unshadowed (qname : list byte) (pre post : list entry) (e : entry) :
  Forall (fun e' => name_matches qname e' = false) pre ->
  name_matches qname e = true ->
  List.find (name_matches qname) (pre ++ e :: post) = Some e.
Proof.
  induction 1 as [|e' pre He' Hpre IH]; intros Hm; simpl.
  - rewrite Hm. reflexivity.
  - rewrite He'. apply IH. exact Hm.
Qed.

(** * The claims *)


(** C9. Every step of the iterator first releases the name and value
    buffers of the step before it: the decoding starts from an iterator
    with no buffer and from a memory in which only the objects that were
    live before the query exist, and it leaves at most its own two
    buffers behind.  Every call of [squashfs_listxattr] and of
    [squashfs_getxattr] returns, whatever its outcome, with exactly the
    objects live that were live when it was called. *)
Theorem buffers_released_on_every_path (E : env) :
  (forall base iter m r iter' m',
     owns base iter m ->
     squashfs_xattr_iterator_next E iter m = (r, iter', m') ->
     exists iter0 m0,
       xattr_iterator_release_buffer iter m = (iter0, m0) /\
       name iter0 = None /\ value iter0 = None /\ cells m0 = base /\
       xattr_iterator_read_next E iter0 m0 = (r, iter', m') /\
       owns base iter' m') /\
  (forall d buffer size m,
     exists r, squashfs_listxattr E d buffer size m = Some r /\ cells r.2 = cells m) /\
  (forall d qname buffer size m,
     exists r, squashfs_getxattr E d qname buffer size m = Some r /\ cells r.2 = cells m).
Proof.
  split; [|split].
  - intros base iter m r iter' m' Ho Hstep.
    pose proof (next_owns E _ _ _ _ _ _ Ho Hstep) as Ho'.
    unfold squashfs_xattr_iterator_next in Hstep.
    destruct (xattr_iterator_release_buffer iter m) as [iter0 m0] eqn:Hrel.
    destruct (release_owns _ _ _ _ _ Ho Hrel) as (Hn & Hv & Hc & _).
    exists iter0, m0. splits; try assumption. reflexivity.
  - apply listxattr_returns.
  - apply getxattr_returns.
Qed.

Lemma buffers_released_witness :
  owns ∅ held_two.1.2 held_two.2 /\
  (name held_two.1.2 = Some 0%nat /\ value held_two.1.2 = Some 1%nat /\
   cells held_two.2 !! 0%nat = Some (bytes_of "trusted.a" ++ [x00]) /\
   cells held_two.2 !! 1%nat = Some [x2a]) /\
  (exists iter0 m0,
     xattr_iterator_release_buffer held_two.1.2 held_two.2 = (iter0, m0) /\
     name iter0 = None /\ value iter0 = None /\ cells m0 = ∅ /\
     xattr_iterator_read_next E_root iter0 m0 =
       (second_two.1.1, second_two.1.2, second_two.2) /\
     owns ∅ second_two.1.2 second_two.2) /\
  (second_two.1.1 = 1 /\
   cells second_two.2 !! 0%nat = Some (bytes_of "user.b" ++ [x00]) /\
   cells second_two.2 !! 1%nat = Some [x01; x02] /\
   cells second_two.2 !! 2%nat = None) /\
  (exists r,
     squashfs_listxattr E_root (on_image img_two) None 0 empty_mem = Some r /\
     cells r.2 = cells empty_mem).
Proof.
  assert (Ho : owns ∅ held_two.1.2 held_two.2).
  { apply (next_owns E_root ∅ iter_two empty_mem held_two.1.1).
    - apply (owns_none iter_two empty_mem); reflexivity.
    - unfold held_two.
      destruct (squashfs_xattr_iterator_next E_root iter_two empty_mem) as [[r it] m].
      reflexivity. }
  assert (Hstep : squashfs_xattr_iterator_next E_root held_two.1.2 held_two.2 =
                    (second_two.1.1, second_two.1.2, second_two.2)).
  { unfold second_two.
    destruct (squashfs_xattr_iterator_next E_root held_two.1.2 held_two.2) as [[r it] m].
    reflexivity. }
  split; [exact Ho|].
  split; [splits; vm_compute; reflexivity|].
  split.
  - exact (proj1 (buffers_released_on_every_path E_root) ∅ held_two.1.2 held_two.2
             second_two.1.1 second_two.1.2 second_two.2 Ho Hstep).
  - split; [splits; vm_compute; reflexivity|].
    exact (proj1 (proj2 (buffers_released_on_every_path E_root))
             (on_image img_two) None 0 empty_mem).
Defined.

(** C10. A step that decodes an entry found at least 8 bytes of budget,
    checked that [name_len + value_len] does not exceed what is left after
    the 8 bytes of the entry header, and leaves exactly
    [8 + name_len + value_len] bytes less, without wrap-around.  So [n]
    decoded entries in a row need [8 * n] bytes of budget, which is at
    most [B / 8] entries from a budget [B], and both queries return for
    every reader. *)
Theorem budget_bounds_the_iteration (E : env) :
  (forall iter m iter' m',
     0 <= remaining_bytes iter < 2 ^ 32 ->
     squashfs_xattr_iterator_next E iter m = (1, iter', m') ->
     8 <= remaining_bytes iter /\
     0 <= name_len iter' /\ 0 <= value_len iter' /\
     name_len iter' + value_len iter' <= remaining_bytes iter - 8 /\
     remaining_bytes iter' = remaining_bytes iter - (8 + name_len iter' + value_len iter') /\
     0 <= remaining_bytes iter' <= remaining_bytes iter - 8) /\
  (forall n iter m iter' m',
     0 <= remaining_bytes iter < 2 ^ 32 ->
     ready_steps E n iter m iter' m' ->
     Z.of_nat n <= remaining_bytes iter / 8) /\
  (forall d buffer size m, is_Some (squashfs_listxattr E d buffer size m)) /\
  (forall d qname buffer size m, is_Some (squashfs_getxattr E d qname buffer size m)).
Proof.
  splits.
  - intros iter m iter' m' Hr Hstep.
    destruct (next_ready E _ _ _ _ Hr Hstep) as (H8 & Hnl & Hvl & Htot & Hrem & _).
    unfold sizeof_xattr_entry in *. lia.
  - intros n iter m iter' m' Hr Hsteps.
    destruct (ready_steps_budget E _ _ _ _ _ Hsteps Hr).
    apply Z.div_le_lower_bound; lia.
  - intros d buffer size m.
    destruct (listxattr_returns E d buffer size m) as (r & -> & _). eauto.
  - intros d qname buffer size m.
    destruct (getxattr_returns E d qname buffer size m) as (r & -> & _). eauto.
Qed.

Lemma budget_bounds_witness :
  0 <= remaining_bytes iter_abc < 2 ^ 32 /\
  (squashfs_xattr_iterator_next E_root iter_abc empty_mem).1.1 = 1 /\
  remaining_bytes (squashfs_xattr_iterator_next E_root iter_abc empty_mem).1.2
    = 12 - (8 + 3 + 1).
Proof.
  assert (Hr : 0 <= remaining_bytes iter_abc < 2 ^ 32) by (simpl; lia).
  split; [exact Hr|]. split; [vm_compute; reflexivity|].
  pose proof (proj1 (budget_bounds_the_iteration E_root) iter_abc empty_mem
                (squashfs_xattr_iterator_next E_root iter_abc empty_mem).1.2
                (squashfs_xattr_iterator_next E_root iter_abc empty_mem).2 Hr
                ltac:(vm_compute; reflexivity)) as (_ & _ & _ & _ & H & _).
  exact H.
Defined.


(** The size query and the call that fills the buffer agree, for the
    entries that [filtered] lets pass: without a buffer
    [squashfs_listxattr] returns the sum of [name_len + 1] over them, and
    with a buffer of exactly that many bytes the same number and the
    names in order, each followed by a NUL. *)
Lemma list_reports_size_then_fills (E : env) d es m buf :
  well_formed E (d_inode d) es ->
  alloc_fail m = [] ->
  len buf = required_size E es ->
  exists m1 m2,
    squashfs_listxattr E d None 0 m = Some (required_size E es, None, m1) /\
    squashfs_listxattr E d (Some buf) (required_size E es) m1 =
      Some (required_size E es, Some (listing E es), m2) /\
    len (listing E es) = required_size E es /\
    cells m2 = cells m.
Proof.
  intros Hwf Haf Hlen.
  destruct (listxattr_well_formed E d es None 0 m Hwf Haf) as (m1 & H1 & Hc1 & Haf1);
    [discriminate|].
  destruct (listxattr_well_formed E d es (Some buf) (required_size E es) m1 Hwf Haf1)
    as (m2 & H2 & Hc2 & Haf2).
  { intros b [= <-]. lia. }
  exists m1, m2. splits.
  - exact H1.
  - rewrite H2. simpl. rewrite memcpy_all; [reflexivity|].
    pose proof (listing_length E es). unfold len in *. lia.
  - apply listing_length.
  - congruence.
Qed.

(** C6, at a failing input.  The set of [img_two] holds [trusted.a] and
    [user.b] and the caller has no privilege.  The entries that are not
    filtered are, by the comment above [filtered], all but the trusted
    ones: [user.b], 7 bytes with its NUL.  The code's [filtered] returns
    non-zero for every name that does not start with [trusted.], so the
    listing counts and writes [trusted.a] and skips [user.b]: the size
    query returns 10, a buffer of 7 bytes gets [-ERANGE], and a set that
    holds only [user.b] lists as empty. *)
Theorem unprivileged_listing_skips_the_other_names :
  capable E_user CAP_SYS_ADMIN = false /\
  well_formed E_user (d_inode (on_image img_two)) es_two /\
  spec_required_size false es_two = 7 /\
  spec_listing false es_two = bytes_of "user.b" ++ [x00] /\
  outcome (squashfs_listxattr E_user (on_image img_two) None 0 empty_mem)
    = Some (10, None) /\
  outcome (squashfs_listxattr E_user (on_image img_two) (Some (replicate 7 xff)) 7
             empty_mem) = Some (- ERANGE, Some (replicate 7 xff)) /\
  outcome (squashfs_listxattr E_user (on_image img_two) (Some (replicate 10 xff)) 10
             empty_mem) = Some (10, Some (bytes_of "trusted.a" ++ [x00])) /\
  spec_required_size false [(bytes_of "user.b", [x01; x02])] = 7 /\
  outcome (squashfs_listxattr E_user (on_image img_user) None 0 empty_mem)
    = Some (0, None).
Proof.
  split; [reflexivity|].
  split; [apply img_two_well_formed; reflexivity|].
  splits; reflexivity.
Qed.

(** C7. On a well-formed attribute set [squashfs_getxattr] answers with
    the first entry for which [strncmp] over [name_len] bytes of the
    decoded name finds the query equal, and with [-ENODATA] when there is
    none.  That comparison does not look at the query beyond [name_len]
    bytes: a query that continues a stored name matches it, and for a
    stored name without NUL bytes the entry matches exactly when the name
    is a prefix of the query. *)
Theorem getxattr_compares_name_len_bytes (E : env) d es qname m :
  well_formed E (d_inode d) es ->
  alloc_fail m = [] ->
  (exists m',
     squashfs_getxattr E d qname None 0 m =
       Some (match List.find (name_matches qname) es with
             | Some e => len e.2
             | None => - ENODATA
             end, None, m')) /\
  (forall nm v extra, name_matches (nm ++ extra) (nm, v) = true) /\
  (forall nm v, x00 ∉ nm ->
     (name_matches qname (nm, v) = true <-> take (length nm) qname = nm)).
Proof.
  intros Hwf Haf. splits.
  - destruct (getxattr_well_formed E d es qname None 0 m Hwf Haf) as (m' & H & _).
    exists m'. rewrite H. destruct (List.find (name_matches qname) es); reflexivity.
  - intros nm v extra. apply name_matches_self.
  - intros nm v Hnul. unfold name_matches. simpl.
    rewrite <- (strncmp_zero_iff_prefix nm qname Hnul). apply Z.eqb_eq.
Qed.

Lemma getxattr_compares_name_len_bytes_witness :
  well_formed E_root (d_inode (on_image img_abc)) [(bytes_of "abc", [x2a])] /\
  exists m',
    squashfs_getxattr E_root (on_image img_abc) (bytes_of "abcdef") None 0 empty_mem =
      Some (1, None, m').
Proof.
  split; [apply img_abc_well_formed; reflexivity|].
  apply (proj1 (getxattr_compares_name_len_bytes E_root (on_image img_abc)
                  [(bytes_of "abc", [x2a])] (bytes_of "abcdef") empty_mem
                  (img_abc_well_formed E_root eq_refl) eq_refl)).
Defined.

(** C2, as the code has it.  On a well-formed attribute set, with an
    allocator that does not fail: a caller with [CAP_SYS_ADMIN] gets every
    name listed; and for every caller, privileged or not, every stored
    name that no earlier entry's name matches under the comparison of
    [squashfs_getxattr] is retrievable: the lookup applies no filter,
    returns the length of that name's value without a buffer, and with a
    buffer of that length exactly the bytes of that value. *)
Theorem names_listed_when_privileged_and_retrievable_unless_shadowed (E : env) d es m :
  well_formed E (d_inode d) es ->
  alloc_fail m = [] ->
  (capable E CAP_SYS_ADMIN = true ->
     (exists m', squashfs_listxattr E d None 0 m = Some (all_names_size es, None, m')) /\
     (forall buf, len buf = all_names_size es ->
        exists m',
          squashfs_listxattr E d (Some buf) (all_names_size es) m =
            Some (all_names_size es, Some (all_names es), m'))) /\
  (forall (es1 es2 : list entry) nm v,
     es = es1 ++ (nm, v) :: es2 ->
     Forall (fun e => name_matches nm e = false) es1 ->
     (exists m', squashfs_getxattr E d nm None 0 m = Some (len v, None, m')) /\
     (forall buf, len buf = len v ->
        exists m',
          squashfs_getxattr E d nm (Some buf) (len v) m = Some (len v, Some v, m'))).
Proof.
  intros Hwf Haf. split.
  - intros Hcap. split.
    + destruct (listxattr_well_formed E d es None 0 m Hwf Haf) as (m' & H & _);
        [discriminate|].
      exists m'. rewrite H, privileged_required_size by exact Hcap. reflexivity.
    + intros buf Hlen.
      destruct (listxattr_well_formed E d es (Some buf) (all_names_size es) m Hwf Haf)
        as (m' & H & _).
      { intros b [= <-]. rewrite privileged_required_size by exact Hcap. lia. }
      exists m'. rewrite H, privileged_required_size, privileged_listing by exact Hcap.
      simpl. rewrite memcpy_all; [reflexivity|].
      pose proof (listing_length E es) as Hl.
      rewrite privileged_required_size, privileged_listing in Hl by exact Hcap.
      unfold len in *. lia.
  - intros es1 es2 nm v Hes Hpre.
    assert (Hfind : List.find (name_matches nm) es = Some (nm, v)).
    { rewrite Hes. apply find_unshadowed; [exact Hpre|].
      rewrite <- (app_nil_r nm) at 1. apply name_matches_self. }
    split.
    + destruct (getxattr_well_formed E d es nm None 0 m Hwf Haf) as (m' & H & _).
      exists m'. rewrite H, Hfind. reflexivity.
    + intros buf Hlen.
      destruct (getxattr_well_formed E d es nm (Some buf) (len v) m Hwf Haf)
        as (m' & H & _).
      exists m'. rewrite H, Hfind. unfold found_result. cbn [snd].
      rewrite Z.ltb_irrefl. rewrite memcpy_all; [reflexivity|].
      unfold len in Hlen. lia.
Qed.

Lemma names_retrievable_witness :
  (well_formed E_root (d_inode (on_image img_two)) es_two /\
   capable E_root CAP_SYS_ADMIN = true /\
   (exists m',
      squashfs_listxattr E_root (on_image img_two) None 0 empty_mem =
        Some (17, None, m')) /\
   (exists m',
      squashfs_listxattr E_root (on_image img_two) (Some (replicate 17 xff)) 17
        empty_mem =
        Some (17, Some (bytes_of "trusted.a" ++ [x00] ++ bytes_of "user.b" ++ [x00]), m'))) /\
  (well_formed E_user (d_inode (on_image img_two)) es_two /\
   capable E_user CAP_SYS_ADMIN = false /\
   (exists m',
      squashfs_getxattr E_user (on_image img_two) (bytes_of "trusted.a") (Some [xff]) 1
        empty_mem = Some (1, Some [x2a], m')) /\
   (exists m',
      squashfs_getxattr E_user (on_image img_two) (bytes_of "user.b") None 0 empty_mem =
        Some (2, None, m')) /\
   (exists m',
      squashfs_getxattr E_user (on_image img_two) (bytes_of "user.b")
        (Some [xff; xff]) 2 empty_mem = Some (2, Some [x01; x02], m'))).
Proof.
  split.
  - split; [apply img_two_well_formed; reflexivity|]. split; [reflexivity|].
    destruct (proj1 (names_listed_when_privileged_and_retrievable_unless_shadowed E_root
                       (on_image img_two) es_two empty_mem
                       (img_two_well_formed E_root eq_refl) eq_refl) eq_refl)
      as [Hsize Hfill].
    split; [exact Hsize|]. apply (Hfill (replicate 17 xff)). reflexivity.
  - split; [apply img_two_well_formed; reflexivity|]. split; [reflexivity|].
    pose proof (proj2 (names_listed_when_privileged_and_retrievable_unless_shadowed E_user
                         (on_image img_two) es_two empty_mem
                         (img_two_well_formed E_user eq_refl) eq_refl)) as Hget.
    destruct (Hget [] [(bytes_of "user.b", [x01; x02])] (bytes_of "trusted.a") [x2a]
                eq_refl ltac:(constructor)) as [_ Hfill1].
    destruct (Hget [(bytes_of "trusted.a", [x2a])] [] (bytes_of "user.b") [x01; x02]
                eq_refl) as [Hsize2 Hfill2].
    { constructor; [reflexivity | constructor]. }
    split; [apply (Hfill1 [xff]); reflexivity|].
    split; [exact Hsize2|]. apply (Hfill2 [xff; xff]). reflexivity.
Defined.

(** C2 as stated fails, in two ways.  Without [CAP_SYS_ADMIN], a name in
    the trusted namespace is returned by [squashfs_getxattr] and is the
    one name listed, and the name outside that namespace is left out of
    the listing.  And with [CAP_SYS_ADMIN], a stored name that continues
    an earlier stored name is not retrievable: the lookup of [abc] after
    [ab] gives the value of [ab]. *)
Lemma trusted_name_reached_and_shadowed_name_lost :
  capable E_user CAP_SYS_ADMIN = false /\
  strncmp (bytes_of "trusted.a") XATTR_TRUSTED_PREFIX 8 = 0 /\
  outcome (squashfs_getxattr E_user (on_image img_two) (bytes_of "trusted.a") None 0
             empty_mem) = Some (1, None) /\
  1 <> - ENODATA /\
  outcome (squashfs_listxattr E_user (on_image img_two) (Some (replicate 10 xff)) 10
             empty_mem) = Some (10, Some (bytes_of "trusted.a" ++ [x00])) /\
  capable E_root CAP_SYS_ADMIN = true /\
  well_formed E_root (d_inode (on_image img_shadow)) es_shadow /\
  In (bytes_of "abc", [x09]) es_shadow /\
  outcome (squashfs_getxattr E_root (on_image img_shadow) (bytes_of "abc") None 0
             empty_mem) = Some (2, None) /\
  2 <> len [x09] /\
  outcome (squashfs_getxattr E_root (on_image img_shadow) (bytes_of "abc")
             (Some [xff; xff]) 2 empty_mem) = Some (2, Some [x01; x02]).
Proof.
  do 3 (split; [reflexivity|]). split; [discriminate|].
  do 2 (split; [reflexivity|]).
  split; [apply img_shadow_well_formed; reflexivity|].
  split; [right; left; reflexivity|].
  split; [reflexivity|]. split; [discriminate | reflexivity].
Qed.

(** C5, at a failing input.  After the well-formed entry [abc] the next
    entry header declares [name_len = 5000]: the iterator reports [-EIO],
    its code for a length violation, [squashfs_listxattr] fails with it,
    and [squashfs_getxattr], which reaches the entry when it looks for
    [xyz], returns [-ENODATA].  The same for such an entry in first
    position, for a declared [value_len] of 70000 and for lengths that
    exceed the budget. *)
Theorem getxattr_returns_ENODATA_for_a_malformed_entry :
  malformed_after E_root (d_inode (on_image img_bad_second)) [(bytes_of "abc", [x2a])] /\
  (xattr_iterator_read_next E_root
     (Iter 0 0 None None (SuperBlock 0 img_bad_second) 0 16 8) empty_mem).1.1 = - EIO /\
  outcome (squashfs_listxattr E_root (on_image img_bad_second) None 0 empty_mem)
    = Some (- EIO, None) /\
  outcome (squashfs_getxattr E_root (on_image img_bad_second) (bytes_of "xyz") None 0
             empty_mem) = Some (- ENODATA, None) /\
  outcome (squashfs_listxattr E_root (on_image img_long_name) None 0 empty_mem)
    = Some (- EIO, None) /\
  outcome (squashfs_getxattr E_root (on_image img_long_name) (bytes_of "abc") None 0
             empty_mem) = Some (- ENODATA, None) /\
  outcome (squashfs_listxattr E_root (on_image img_long_value) None 0 empty_mem)
    = Some (- EIO, None) /\
  outcome (squashfs_getxattr E_root (on_image img_long_value) (bytes_of "abc") None 0
             empty_mem) = Some (- ENODATA, None) /\
  outcome (squashfs_listxattr E_root (on_image img_over_budget) None 0 empty_mem)
    = Some (- EIO, None) /\
  outcome (squashfs_getxattr E_root (on_image img_over_budget) (bytes_of "abc") None 0
             empty_mem) = Some (- ENODATA, None).
Proof. split; [exact img_bad_second_malformed|]. splits; reflexivity. Qed.

(** C1, at a failing input.  The read of the first entry header fails:
    the iterator reports [-EIO], [squashfs_listxattr] returns it, and
    [squashfs_getxattr] returns [-ENODATA].  The same with an allocation
    that fails: the listing returns [-ENOMEM], the lookup [-ENODATA]. *)
Theorem getxattr_returns_ENODATA_for_an_iterator_error :
  (squashfs_xattr_iterator_next (E_bad_sector 4) iter_abc empty_mem).1.1 = - EIO /\
  outcome (squashfs_listxattr (E_bad_sector 4) (on_image img_abc) None 0 empty_mem)
    = Some (- EIO, None) /\
  outcome (squashfs_getxattr (E_bad_sector 4) (on_image img_abc) (bytes_of "abc") None 0
             empty_mem) = Some (- ENODATA, None) /\
  (squashfs_xattr_iterator_next E_root iter_abc (Kmem ∅ [true] [])).1.1 = - ENOMEM /\
  outcome (squashfs_listxattr E_root (on_image img_abc) None 0 (Kmem ∅ [true] []))
    = Some (- ENOMEM, None) /\
  outcome (squashfs_getxattr E_root (on_image img_abc) (bytes_of "abc") None 0
             (Kmem ∅ [true] [])) = Some (- ENODATA, None).
Proof. splits; reflexivity. Qed.

(** C3, at a failing input.  The image ends 4 bytes into the entry
    header, the reader returns those 4 bytes and no error: the step
    returns 0, the value that means the end of the set, and the listing
    succeeds with 0 names. *)
Theorem short_entry_header_reads_as_end_of_set :
  rd_ret (squashfs_read_metadata E_root (SuperBlock 0 img_short) 0 4 sizeof_xattr_entry) = 4 /\
  (xattr_iterator_read_next E_root
     (Iter 0 0 None None (SuperBlock 0 img_short) 0 4 12) empty_mem).1.1 = 0 /\
  outcome (squashfs_listxattr E_root (on_image img_short) None 0 empty_mem)
    = Some (0, None) /\
  outcome (squashfs_getxattr E_root (on_image img_short) (bytes_of "abc") None 0 empty_mem)
    = Some (- ENODATA, None).
Proof. splits; reflexivity. Qed.

(** C4, at a failing input.  The header declares [total_size = 0]: the
    iterator starts with a budget of [2 ^ 32 - 4], the entry behind the
    header is read and decoded, and the lookup of its name succeeds. *)
Theorem undersized_header_is_not_rejected :
  le32_to_cpu img_size0 0 = 0 /\
  (squashfs_xattr_iterator_start E_root (d_inode (on_image img_size0)) empty_mem).1
    = (1, Iter 0 0 None None (SuperBlock 0 img_size0) 0 4 4294967292) /\
  outcome (squashfs_getxattr E_root (on_image img_size0) (bytes_of "abc")
             (Some [x00]) 1 empty_mem) = Some (1, Some [x2a]) /\
  option_map (fun r => io_log r.2)
    (squashfs_getxattr E_root (on_image img_size0) (bytes_of "abc") None 0 empty_mem)
    = Some [(0, 0, 4); (0, 4, 8); (0, 12, 3); (0, 15, 1)].
Proof. splits; reflexivity. Qed.

(** C8, at a failing input.  For the locator [0x80000000] and the table
    base 0 the claim gives block [0 + (0x80000000 >> 13) = 262144]; the
    code, which holds the locator in an [int], asks the reader for block
    [2 ^ 64 - 262144]. *)
Theorem high_locator_is_sign_extended :
  i_xattr ino_high = 2 ^ 31 /\
  xattr_table (i_sb ino_high) + Z.shiftr (i_xattr ino_high) 13 = 262144 /\
  io_log (squashfs_xattr_iterator_start E_unreadable ino_high empty_mem).2
    = [(2 ^ 64 - 262144, 0, 4)].
Proof. splits; reflexivity. Qed.

(** * Further properties of the code *)

(** ** Lookups and listings on a well-formed set *)

Lemma memcpy_at_start (b v : list byte) : memcpy b 0 v = v ++ drop (length v) b.
Proof. reflexivity. Qed.

Lemma find_no_match (qname : list byte) (es : list entry) :
  Forall (fun e => name_matches qname e = false) es ->
  List.find (name_matches qname) es = None.
Proof.
  induction 1 as [|e es He Hes IH]; simpl; [reflexivity|].
  rewrite He. exact IH.
Qed.

(** X1. Store and look up: on a well-formed set, the lookup of a stored
    name that no earlier entry's name matches, with a buffer that has
    room for the value, returns the value's length and copies exactly the
    value to the start of the buffer; the bytes of the buffer behind it
    and the live objects of memory are as before. *)
Theorem getxattr_returns_the_stored_value (E : env) d (pre post : list entry) nm v b size m :
  well_formed E (d_inode d) (pre ++ (nm, v) :: post) ->
  alloc_fail m = [] ->
  Forall (fun e => name_matches nm e = false) pre ->
  len v <= size ->
  exists m',
    squashfs_getxattr E d nm (Some b) size m =
      Some (len v, Some (v ++ drop (length v) b), m') /\
    cells m' = cells m.
Proof.
  intros Hwf Haf Hpre Hsize.
  destruct (getxattr_well_formed E d _ nm (Some b) size m Hwf Haf) as (m' & H & Hc & _).
  exists m'. split; [|exact Hc].
  pose proof (find_unshadowed nm pre post (nm, v) Hpre) as Hfind.
  unfold entry in *. rewrite H, Hfind.
  - unfold found_result. simpl. replace (size <? len v) with false by lia.
    rewrite memcpy_at_start. reflexivity.
  - rewrite <- (app_nil_r nm) at 1. apply name_matches_self.
Qed.

Lemma getxattr_returns_the_stored_value_witness :
  well_formed E_user (d_inode (on_image img_two)) es_two /\
  exists m',
    squashfs_getxattr E_user (on_image img_two) (bytes_of "user.b")
      (Some [xff; xff; xff]) 3 empty_mem =
      Some (2, Some [x01; x02; xff], m') /\
    cells m' = cells empty_mem.
Proof.
  split; [apply img_two_well_formed; reflexivity|].
  apply (getxattr_returns_the_stored_value E_user (on_image img_two)
           [(bytes_of "trusted.a", [x2a])] [] (bytes_of "user.b") [x01; x02]
           [xff; xff; xff] 3 empty_mem).
  - apply img_two_well_formed; reflexivity.
  - reflexivity.
  - repeat constructor.
  - vm_compute. congruence.
Defined.

(** X2. On a well-formed set, a lookup that finds an entry whose value
    is longer than the caller's [size] returns [-ERANGE] and leaves the
    buffer as it was. *)
Theorem getxattr_small_buffer_is_ERANGE (E : env) d es qname e b size m :
  well_formed E (d_inode d) es ->
  alloc_fail m = [] ->
  List.find (name_matches qname) es = Some e ->
  size < len e.2 ->
  exists m',
    squashfs_getxattr E d qname (Some b) size m = Some (- ERANGE, Some b, m') /\
    cells m' = cells m.
Proof.
  intros Hwf Haf Hfind Hsize.
  destruct (getxattr_well_formed E d _ qname (Some b) size m Hwf Haf) as (m' & H & Hc & _).
  exists m'. split; [|exact Hc].
  rewrite H, Hfind. unfold found_result.
  replace (size <? len e.2) with true by lia. reflexivity.
Qed.

Lemma getxattr_small_buffer_witness :
  well_formed E_root (d_inode (on_image img_abc)) [(bytes_of "abc", [x2a])] /\
  exists m',
    squashfs_getxattr E_root (on_image img_abc) (bytes_of "abc") (Some []) 0 empty_mem =
      Some (- ERANGE, Some [], m') /\
    cells m' = cells empty_mem.
Proof.
  split; [apply img_abc_well_formed; reflexivity|].
  apply (getxattr_small_buffer_is_ERANGE E_root (on_image img_abc)
           [(bytes_of "abc", [x2a])] (bytes_of "abc") (bytes_of "abc", [x2a]) [] 0
           empty_mem).
  - apply img_abc_well_formed; reflexivity.
  - reflexivity.
  - reflexivity.
  - vm_compute. reflexivity.
Defined.

(** X3. On a well-formed set, the lookup of a name that the comparison
    matches with no stored name returns [-ENODATA], with or without a
    buffer, and the buffer is as it was. *)
Theorem getxattr_unknown_name_is_ENODATA (E : env) d es qname buffer size m :
  well_formed E (d_inode d) es ->
  alloc_fail m = [] ->
  Forall (fun e => name_matches qname e = false) es ->
  exists m',
    squashfs_getxattr E d qname buffer size m = Some (- ENODATA, buffer, m') /\
    cells m' = cells m.
Proof.
  intros Hwf Haf Hno.
  destruct (getxattr_well_formed E d _ qname buffer size m Hwf Haf) as (m' & H & Hc & _).
  exists m'. split; [|exact Hc].
  rewrite H, (find_no_match qname es Hno). reflexivity.
Qed.

Lemma getxattr_unknown_name_witness :
  well_formed E_root (d_inode (on_image img_abc)) [(bytes_of "abc", [x2a])] /\
  exists m',
    squashfs_getxattr E_root (on_image img_abc) (bytes_of "xyz") (Some [xff]) 1 empty_mem =
      Some (- ENODATA, Some [xff], m') /\
    cells m' = cells empty_mem.
Proof.
  split; [apply img_abc_well_formed; reflexivity|].
  apply (getxattr_unknown_name_is_ENODATA E_root (on_image img_abc)
           [(bytes_of "abc", [x2a])] (bytes_of "xyz") (Some [xff]) 1 empty_mem).
  - apply img_abc_well_formed; reflexivity.
  - reflexivity.
  - repeat constructor.
Defined.

Lemma listxattr_loop_too_small (E : env) s base es blk off B blk' off' B' :
  stored E s blk off B es blk' off' B' ->
  forall fuel iter b pos size written m,
  owns base iter m -> alloc_fail m = [] ->
  sb iter = s -> block iter = blk -> offset iter = off -> remaining_bytes iter = B ->
  0 <= size < required_size E es ->
  exists w b' iter' m',
    listxattr_loop E (length es + fuel) iter (Some b) pos size written m =
      Some (- ERANGE, w, Some b', iter', m') /\
    owns base iter' m'.
Proof.
  induction 1 as [|blk off B nm v blk1 off1 es blk' off' B' He Hle Hlt Hst IH];
    intros fuel iter b pos size written m Ho Haf Hs Hb Hof Hrem Hsize.
  - simpl in Hsize. lia.
  - pose proof (len_nonneg nm) as Hnm. pose proof (len_nonneg v) as Hv.
    destruct (next_entry E base s blk off nm v blk1 off1 iter m He Ho Haf Hs Hb Hof
                ltac:(lia))
      as (iter1 & m1 & Hstep & Hnl & Hvl & Hdn & Hdv & Hs1 & Hb1 & Hof1 & Hrem1 & Haf1 & Ho1).
    simpl length. simpl listxattr_loop. rewrite Hstep. simpl (1 =? 1).
    cbv iota. rewrite Hdn, filtered_passes, Hnl.
    simpl required_size in Hsize.
    destruct (passes E nm) eqn:Hp; simpl negb; cbv iota.
    + destruct (size <? len nm + 1) eqn:Hfit.
      * eexists _, _, _, _. split; [reflexivity | exact Ho1].
      * apply IH; try assumption; lia.
    + apply IH; try assumption; lia.
Qed.

(** X4. On a well-formed set, a listing into a buffer whose [size] is
    less than the listing needs returns [-ERANGE], and the live objects
    of memory are as before. *)
Theorem listxattr_small_buffer_is_ERANGE (E : env) d es b size m :
  well_formed E (d_inode d) es ->
  alloc_fail m = [] ->
  0 <= size < required_size E es ->
  exists b' m',
    squashfs_listxattr E d (Some b) size m = Some (- ERANGE, Some b', m') /\
    cells m' = cells m.
Proof.
  intros [[Habs ->]|(total & blk & off & blk' & off' & Hh & H4 & Hst)] Haf Hsize;
    [simpl in Hsize; lia|].
  unfold squashfs_listxattr.
  pose proof (header_total _ _ _ _ _ Hh) as Ht.
  destruct (start_header _ _ _ _ _ m Hh) as (m1 & Hs & Hc1 & Haf1).
  rewrite Hs. simpl (1 <=? 0). cbv iota.
  rewrite u32_small by lia.
  set (iter := Iter 0 0 None None (i_sb (d_inode d)) blk off (total - 4)).
  destruct (stored_fuel _ _ _ _ _ _ _ _ _ iter Hst ltac:(lia) eq_refl) as [k Hk].
  rewrite Hk.
  assert (Ho1 : owns (cells m) iter m1)
    by (rewrite <- Hc1; apply owns_none; reflexivity).
  destruct (listxattr_loop_too_small E _ (cells m) _ _ _ _ _ _ _ Hst (S k) iter b 0 size 0 m1)
    as (w & b' & iter' & m' & Heq & Ho'); try assumption; try reflexivity; try congruence.
  rewrite Heq. unfold squashfs_xattr_iterator_end.
  destruct (xattr_iterator_release_buffer iter' m') as [iter3 m3] eqn:Hrel.
  destruct (release_owns _ _ _ _ _ Ho' Hrel) as (_ & _ & Hc3 & _).
  exists b', m3. split; [|exact Hc3].
  replace (- ERANGE <? 0) with true by reflexivity. reflexivity.
Qed.

Lemma listxattr_small_buffer_witness :
  well_formed E_root (d_inode (on_image img_abc)) [(bytes_of "abc", [x2a])] /\
  exists b' m',
    squashfs_listxattr E_root (on_image img_abc) (Some [xff; xff; xff]) 3 empty_mem =
      Some (- ERANGE, Some b', m') /\
    cells m' = cells empty_mem.
Proof.
  split; [apply img_abc_well_formed; reflexivity|].
  apply (listxattr_small_buffer_is_ERANGE E_root (on_image img_abc)
           [(bytes_of "abc", [x2a])] [xff; xff; xff] 3 empty_mem).
  - apply img_abc_well_formed; reflexivity.
  - reflexivity.
  - vm_compute. split; congruence.
Defined.

(** X5. On a well-formed set, a listing into a buffer with more room
    than it needs returns the needed size and writes the names to the
    start of the buffer; the bytes of the buffer behind the listing are
    as they were. *)
Theorem listxattr_leaves_the_rest_of_the_buffer (E : env) d es b size m :
  well_formed E (d_inode d) es ->
  alloc_fail m = [] ->
  required_size E es <= size ->
  required_size E es <= len b ->
  exists m',
    squashfs_listxattr E d (Some b) size m =
      Some (required_size E es,
            Some (listing E es ++ drop (length (listing E es)) b), m') /\
    length (listing E es ++ drop (length (listing E es)) b) = length b.
Proof.
  intros Hwf Haf Hsize Hroom.
  destruct (listxattr_well_formed E d es (Some b) size m Hwf Haf) as (m' & H & _).
  { intros b0 [= <-]. split; assumption. }
  exists m'. split; [rewrite H; reflexivity|].
  pose proof (listing_length E es) as Hl. unfold len in *.
  rewrite length_app, length_drop. lia.
Qed.

Lemma listxattr_leaves_the_rest_witness :
  well_formed E_root (d_inode (on_image img_abc)) [(bytes_of "abc", [x2a])] /\
  exists m',
    squashfs_listxattr E_root (on_image img_abc) (Some (replicate 6 xff)) 6 empty_mem =
      Some (4, Some (bytes_of "abc" ++ [x00; xff; xff]), m') /\
    length (bytes_of "abc" ++ [x00; xff; xff]) = 6%nat.
Proof.
  split; [apply img_abc_well_formed; reflexivity|].
  apply (listxattr_leaves_the_rest_of_the_buffer E_root (on_image img_abc)
           [(bytes_of "abc", [x2a])] (replicate 6 xff) 6 empty_mem).
  - apply img_abc_well_formed; reflexivity.
  - reflexivity.
  - vm_compute. congruence.
  - vm_compute. congruence.
Defined.

Lemma strncmp_nul_r (s t : list byte) (n : nat) :
  strncmp s (t ++ [x00]) n = strncmp s t n.
Proof.
  revert s t. induction n as [|n IH]; intros s t; [reflexivity|].
  destruct t as [|c t]; simpl.
  - destruct (Byte.eqb (hd x00 s) x00); reflexivity.
  - rewrite IH. reflexivity.
Qed.

Lemma trusted_prefix_test (nm : list byte) :
  (strncmp nm XATTR_TRUSTED_PREFIX 8 =? 0) = true <-> take 8 nm = XATTR_TRUSTED_PREFIX.
Proof.
  rewrite Z.eqb_eq, <- (strncmp_nul_r nm XATTR_TRUSTED_PREFIX 8).
  apply (strncmp_zero_iff_prefix XATTR_TRUSTED_PREFIX nm).
  unfold XATTR_TRUSTED_PREFIX. simpl. intros H.
  repeat (apply elem_of_cons in H; destruct H as [H|H]; [discriminate|]).
  apply elem_of_nil in H. exact H.
Qed.

Section Unprivileged.

Variable E : env.
Hypothesis unprivileged : capable E CAP_SYS_ADMIN = false.

Let trusted (e : entry) : bool := strncmp e.1 XATTR_TRUSTED_PREFIX 8 =? 0.

Lemma unprivileged_required_size (es : list entry) :
  required_size E es = all_names_size (List.filter trusted es).
Proof.
  induction es as [|[nm v] es IH]; [reflexivity|].
  cbn [required_size listing].
  rewrite (unprivileged_passes E nm unprivileged), IH. unfold trusted.
  cbn [List.filter fst].
  destruct (strncmp nm XATTR_TRUSTED_PREFIX 8 =? 0); cbn [all_names_size]; lia.
Qed.

Lemma unprivileged_listing (es : list entry) :
  listing E es = all_names (List.filter trusted es).
Proof.
  induction es as [|[nm v] es IH]; [reflexivity|].
  cbn [required_size listing].
  rewrite (unprivileged_passes E nm unprivileged), IH. unfold trusted.
  cbn [List.filter fst].
  destruct (strncmp nm XATTR_TRUSTED_PREFIX 8 =? 0); reflexivity.
Qed.

End Unprivileged.

(** X6. What [filtered] does for a caller without [CAP_SYS_ADMIN]: on a
    well-formed set the listing holds exactly the names whose first 8
    bytes are [trusted.], in stored order, and every other name is
    skipped. *)
Theorem unprivileged_listing_holds_the_trusted_names (E : env) d es m :
  capable E CAP_SYS_ADMIN = false ->
  well_formed E (d_inode d) es ->
  alloc_fail m = [] ->
  let trusted := List.filter (fun e : entry => strncmp e.1 XATTR_TRUSTED_PREFIX 8 =? 0) es in
  (exists m',
     squashfs_listxattr E d None 0 m = Some (all_names_size trusted, None, m')) /\
  (forall b, len b = all_names_size trusted ->
     exists m',
       squashfs_listxattr E d (Some b) (all_names_size trusted) m =
         Some (all_names_size trusted, Some (all_names trusted), m')) /\
  (forall e, In e trusted <-> In e es /\ take 8 e.1 = XATTR_TRUSTED_PREFIX).
Proof.
  intros Hcap Hwf Haf trusted. splits.
  - destruct (listxattr_well_formed E d es None 0 m Hwf Haf) as (m' & H & _);
      [discriminate|].
    exists m'. rewrite H, (unprivileged_required_size E Hcap). reflexivity.
  - intros b Hlen.
    destruct (listxattr_well_formed E d es (Some b) (all_names_size trusted) m Hwf Haf)
      as (m' & H & _).
    { intros b0 [= <-]. rewrite (unprivileged_required_size E Hcap). fold trusted. lia. }
    exists m'. rewrite H, (unprivileged_required_size E Hcap),
      (unprivileged_listing E Hcap). fold trusted.
    simpl. rewrite memcpy_all; [reflexivity|].
    pose proof (listing_length E es) as Hl.
    rewrite (unprivileged_required_size E Hcap), (unprivileged_listing E Hcap) in Hl.
    fold trusted in Hl. unfold len in *. lia.
  - intros e. unfold trusted. rewrite List.filter_In, trusted_prefix_test. tauto.
Qed.

Lemma unprivileged_listing_witness :
  capable E_user CAP_SYS_ADMIN = false /\
  well_formed E_user (d_inode (on_image img_two)) es_two /\
  exists m',
    squashfs_listxattr E_user (on_image img_two) None 0 empty_mem = Some (10, None, m').
Proof.
  split; [reflexivity|]. split; [apply img_two_well_formed; reflexivity|].
  apply (proj1 (unprivileged_listing_holds_the_trusted_names E_user (on_image img_two)
                  es_two empty_mem eq_refl (img_two_well_formed E_user eq_refl) eq_refl)).
Defined.

(** ** The queries on any image, with any reader *)

Ltac branches_of_read_next H :=
  unfold xattr_iterator_read_next, read_metadata in H;
  cbn [name_len value_len name value sb block offset remaining_bytes
       set_lens set_name set_value set_cursor set_remaining] in H;
  cbv zeta in H;
  cbn [name_len value_len name value sb block offset remaining_bytes
       set_lens set_name set_value set_cursor set_remaining] in H;
  repeat match type of H with
    | context [if ?c then _ else _] => destruct c eqn:?
    | context [kmalloc ?n ?m] => destruct (kmalloc n m) as [[?|] ?] eqn:?
    end.

Lemma requested_app (l k : list (Z * Z * Z)) :
  requested (l ++ k) = requested l + requested k.
Proof.
  unfold requested. induction l as [|rd l IH]; simpl; [lia|].
  rewrite IH. lia.
Qed.

(** One step asks the reader for no more than the budget it starts
    with, and for no more than it takes from the budget when it decodes
    an entry; the budget does not grow. *)
Lemma read_next_requests (E : env) iter m r iter' m' :
  0 <= remaining_bytes iter < 2 ^ 32 ->
  xattr_iterator_read_next E iter m = (r, iter', m') ->
  0 <= remaining_bytes iter' <= remaining_bytes iter /\
  requested (io_log m) <= requested (io_log m') /\
  requested (io_log m') <=
    requested (io_log m) + (remaining_bytes iter - (if r =? 1 then remaining_bytes iter' else 0)).
Proof.
  intros Hr H. destruct iter as [nl vl n v s blk off rem]. simpl in Hr.
  branches_of_read_next H.
  all: inversion H; subst; clear H.
  all: repeat match goal with
         | K : kmalloc _ _ = _ |- _ => apply kmalloc_inv in K; simpl in K;
             destruct K as (? & _ & _)
         end.
  all: unfold store_bytes, store_byte; simpl.
  all: repeat match goal with K : io_log _ = _ |- _ => rewrite K; clear K end.
  all: rewrite ?requested_app; unfold requested; simpl.
  all: unfold EIO, ENOMEM, sizeof_xattr_entry in *.
  all: repeat match goal with
         | K : (_ || _) = false |- _ => apply orb_false_elim in K; destruct K
         end.
  all: try match goal with
       | K : context [le32_to_cpu ?d 0] |- _ =>
           pose proof (le32_to_cpu_range d 0); pose proof (le32_to_cpu_range d 4)
       end.
  all: try rewrite (u32_small (rem - 8)) in * by lia.
  all: try rewrite (u32_small (le32_to_cpu _ 0 + le32_to_cpu _ 4)) in * by lia.
  all: try rewrite (u32_small (rem - 8 - _)) by lia.
  all: repeat match goal with |- context [if ?c then _ else _] => destruct c eqn:? end.
  all: try lia.
Qed.

Lemma next_requests (E : env) iter m r iter' m' :
  0 <= remaining_bytes iter < 2 ^ 32 ->
  squashfs_xattr_iterator_next E iter m = (r, iter', m') ->
  0 <= remaining_bytes iter' <= remaining_bytes iter /\
  requested (io_log m) <= requested (io_log m') /\
  requested (io_log m') <=
    requested (io_log m) + (remaining_bytes iter - (if r =? 1 then remaining_bytes iter' else 0)).
Proof.
  intros Hr H. unfold squashfs_xattr_iterator_next in H.
  pose proof (release_fields iter m) as Hf.
  destruct (xattr_iterator_release_buffer iter m) as [iter0 m0].
  destruct Hf as (_ & _ & _ & _ & _ & Hrem & _ & _ & _ & Hlog).
  rewrite <- Hrem, <- Hlog. apply (read_next_requests E iter0 m0 r iter' m'); [lia | exact H].
Qed.

Lemma drop_memcpy (dst src : list byte) (pos k : nat) :
  (pos + length src <= k)%nat -> (pos <= length dst)%nat ->
  drop k (memcpy dst pos src) = drop k dst.
Proof.
  intros Hk Hpos. unfold memcpy.
  assert (Hl : length (take pos dst) = pos) by (rewrite length_take; lia).
  rewrite drop_app_ge by lia. rewrite Hl.
  rewrite drop_app_ge by lia. rewrite drop_drop. f_equal. lia.
Qed.

(** The loop of [squashfs_listxattr], for any reader: what it adds to
    [written] is within the budget, it writes inside the [size] bytes
    behind [pos] only, and it asks the reader for no more than the
    budget. *)
Lemma listxattr_loop_bounds (E : env) fuel :
  forall iter buffer pos size written m err w buffer' iter' m',
  0 <= remaining_bytes iter < 2 ^ 32 ->
  0 <= written -> written + remaining_bytes iter < 2 ^ 63 ->
  listxattr_loop E fuel iter buffer pos size written m = Some (err, w, buffer', iter', m') ->
  written <= w <= written + remaining_bytes iter /\
  requested (io_log m) <= requested (io_log m') <=
    requested (io_log m) + remaining_bytes iter /\
  (err = 0 \/ err < 0) /\
  ((forall b, buffer = Some b -> 0 <= pos /\ 0 <= size /\ pos + size <= len b) ->
   match buffer with
   | None => buffer' = None
   | Some b =>
       exists b', buffer' = Some b' /\ length b' = length b /\
                  drop (Z.to_nat (pos + size)) b' = drop (Z.to_nat (pos + size)) b
   end).
Proof.
  induction fuel as [|fuel IH];
    intros iter buffer pos size written m err w buffer' iter' m' Hr Hw Hw63 H;
    [discriminate|].
  simpl in H.
  destruct (squashfs_xattr_iterator_next E iter m) as [[r iter1] m1] eqn:Hstep.
  destruct (next_requests E _ _ _ _ _ Hr Hstep) as (Hrem1 & Hlog0 & Hlog1).
  destruct (r =? 1) eqn:Hr1.
  - apply Z.eqb_eq in Hr1. subst r.
    destruct (next_ready E _ _ _ _ Hr Hstep) as (H8 & Hnl & Hvl & Htot & Hrem & _).
    unfold sizeof_xattr_entry in *.
    assert (Hr' : 0 <= remaining_bytes iter1 < 2 ^ 32) by lia.
    destruct (filtered E (deref m1 (name iter1))).
    + assert (Hw63' : written + remaining_bytes iter1 < 2 ^ 63) by lia.
      destruct (IH _ _ _ _ _ _ _ _ _ _ _ Hr' Hw Hw63' H) as (Hw' & Hlog' & He' & Hb').
      splits; [lia | lia | lia | lia | exact He' | exact Hb'].
    + rewrite ssize_t_small in H by lia.
      assert (Hw1 : 0 <= written + (name_len iter1 + 1)) by lia.
      assert (Hw63' : written + (name_len iter1 + 1) + remaining_bytes iter1 < 2 ^ 63)
        by lia.
      destruct buffer as [b|].
      * destruct (size <? name_len iter1 + 1) eqn:Hfit.
        -- inversion H; subst; clear H.
           splits; [lia | lia | lia | lia | right; reflexivity |].
           intros _. exists b. splits; reflexivity.
        -- destruct (IH _ _ _ _ _ _ _ _ _ _ _ Hr' Hw1 Hw63' H)
             as (Hw' & Hlog' & He' & Hb').
           splits; [lia | lia | lia | lia | exact He' |].
           intros Hbuf. destruct (Hbuf b eq_refl) as (Hpos & Hsize & Hroom).
           unfold len in Hroom.
           set (chunk := take (Z.to_nat (name_len iter1)) (deref m1 (name iter1))) in *.
           assert (Hchunk : (length chunk <= Z.to_nat (name_len iter1))%nat)
             by (unfold chunk; rewrite length_take; lia).
           set (b1 := memcpy b (Z.to_nat pos) chunk) in *.
           assert (Hb1 : length b1 = length b) by (apply memcpy_length; lia).
           set (b2 := memcpy b1 (Z.to_nat (pos + name_len iter1)) [x00]) in *.
           assert (Hb2 : length b2 = length b)
             by (unfold b2; rewrite memcpy_length; simpl; lia).
           destruct Hb' as (b' & -> & Hlen' & Hdrop').
           { intros b0 [= <-]. unfold len. lia. }
           exists b'. splits; [reflexivity | lia |].
           replace (pos + (name_len iter1 + 1) + (size - (name_len iter1 + 1)))
             with (pos + size) in Hdrop' by lia.
           rewrite Hdrop'. unfold b2.
           rewrite drop_memcpy by (simpl; lia).
           unfold b1. apply drop_memcpy; lia.
      * destruct (IH _ _ _ _ _ _ _ _ _ _ _ Hr' Hw1 Hw63' H)
          as (Hw' & Hlog' & He' & Hb').
        splits; [lia | lia | lia | lia | exact He' |]. intros _. apply Hb'. discriminate.
  - inversion H; subst; clear H.
    assert (Herr : err = 0 \/ err < 0).
    { unfold squashfs_xattr_iterator_next in Hstep.
      destruct (xattr_iterator_release_buffer iter m) as [iter0 m0].
      destruct iter0 as [nl vl n v s blk off rem].
      branches_of_read_next Hstep.
      all: inversion Hstep; subst; unfold EIO, ENOMEM; lia. }
    splits; [lia | lia | lia | lia | exact Herr |].
    intros _. destruct buffer' as [b|]; [exists b; splits; reflexivity | reflexivity].
Qed.

(** The loop of [squashfs_getxattr], for any reader. *)
Lemma getxattr_loop_bounds (E : env) fuel :
  forall iter qname buffer size m err buffer' iter' m',
  0 <= remaining_bytes iter < 2 ^ 32 ->
  getxattr_loop E fuel iter qname buffer size m = Some (err, buffer', iter', m') ->
  requested (io_log m) <= requested (io_log m') <=
    requested (io_log m) + remaining_bytes iter /\
  (((err = - ENODATA \/ err = - ERANGE) /\ buffer' = buffer) \/
   (0 <= err <= 65536 /\
    match buffer with
    | None => buffer' = None
    | Some b =>
        err <= size /\
        exists b', buffer' = Some b' /\
          (size <= len b ->
           length b' = length b /\ drop (Z.to_nat size) b' = drop (Z.to_nat size) b)
    end)).
Proof.
  induction fuel as [|fuel IH];
    intros iter qname buffer size m err buffer' iter' m' Hr H; [discriminate|].
  simpl in H.
  destruct (squashfs_xattr_iterator_next E iter m) as [[r iter1] m1] eqn:Hstep.
  destruct (next_requests E _ _ _ _ _ Hr Hstep) as (Hrem1 & Hlog0 & Hlog1).
  destruct (r =? 1) eqn:Hr1.
  - apply Z.eqb_eq in Hr1. subst r.
    destruct (next_ready E _ _ _ _ Hr Hstep) as (H8 & Hnl & Hvl & Htot & Hrem & _).
    unfold sizeof_xattr_entry in *.
    assert (Hr' : 0 <= remaining_bytes iter1 < 2 ^ 32) by lia.
    destruct (negb _).
    + destruct (IH _ _ _ _ _ _ _ _ _ Hr' H) as (Hlog' & Hres).
      split; [lia | exact Hres].
    + rewrite s32_small in H by lia.
      destruct buffer as [b|].
      * destruct (size <? value_len iter1) eqn:Hfit; inversion H; subst; clear H.
        -- split; [lia|]. left. split; [right|]; reflexivity.
        -- split; [lia|]. right. split; [lia|]. split; [lia|].
           eexists. split; [reflexivity|]. intros Hroom. unfold len in Hroom.
           set (chunk := take (Z.to_nat (value_len iter')) (deref m' (value iter'))).
           assert (Hchunk : (length chunk <= Z.to_nat (value_len iter'))%nat)
             by (unfold chunk; rewrite length_take; lia).
           split; [apply memcpy_length | apply drop_memcpy]; simpl; lia.
      * inversion H; subst; clear H.
        split; [lia|]. right. split; [lia | reflexivity].
  - inversion H; subst; clear H.
    split; [lia|]. left. split; [left|]; reflexivity.
Qed.

Lemma start_requests (E : env) ino m r iter m' :
  squashfs_xattr_iterator_start E ino m = (r, iter, m') ->
  requested (io_log m) <= requested (io_log m') <=
    requested (io_log m) + sizeof_xattr_header /\
  (r <= 0 -> remaining_bytes iter = 0) /\
  (r = 1 \/ r = 0 \/ r < 0).
Proof.
  unfold squashfs_xattr_iterator_start, read_metadata. cbv zeta.
  cbn [name_len value_len name value sb block offset remaining_bytes
       set_lens set_name set_value set_cursor set_remaining].
  intros H.
  repeat match type of H with
    | context [if ?c then _ else _] => destruct c eqn:?
    end.
  all: inversion H; subst; clear H; simpl.
  all: rewrite ?requested_app; unfold requested, sizeof_xattr_header, EIO in *; simpl.
  all: splits; lia.
Qed.

(** What [squashfs_listxattr] does for any reader, from the two loop
    lemmas: its result, its reads and its writes. *)
Lemma listxattr_any_reader (E : env) d buffer size m :
  let st := squashfs_xattr_iterator_start E (d_inode d) m in
  exists ret buffer' m',
    squashfs_listxattr E d buffer size m = Some (ret, buffer', m') /\
    (ret < 0 \/ 0 <= ret <= remaining_bytes st.1.2) /\
    requested (io_log m) <= requested (io_log m') <=
      requested (io_log m) + sizeof_xattr_header + remaining_bytes st.1.2 /\
    ((forall b, buffer = Some b -> 0 <= size <= len b) ->
     match buffer with
     | None => buffer' = None
     | Some b =>
         exists b', buffer' = Some b' /\ length b' = length b /\
                    drop (Z.to_nat size) b' = drop (Z.to_nat size) b
     end).
Proof.
  unfold squashfs_listxattr.
  destruct (squashfs_xattr_iterator_start E (d_inode d) m) as [[err iter] m1] eqn:Hs.
  cbn [fst snd]. cbv zeta.
  destruct (start_any E _ _ _ _ _ Hs) as (Hn & Hv & Hc & Hr & _).
  destruct (start_requests E _ _ _ _ _ Hs) as (Hlog1 & Hzero & _).
  destruct (err <=? 0) eqn:Herr.
  - eexists _, _, _. split; [reflexivity|]. splits; try lia.
    intros _. destruct buffer as [b|]; [exists b; splits; reflexivity | reflexivity].
  - destruct (listxattr_loop_total E (loop_bound iter) iter buffer 0 size 0 m1 Hr)
      as [[[[[err2 w] buf2] iter2] m2] Hloop]; [apply loop_bound_enough; lia|].
    rewrite Hloop.
    assert (H0 : 0 <= 0) by lia.
    assert (H63 : 0 + remaining_bytes iter < 2 ^ 63) by lia.
    destruct (listxattr_loop_bounds E _ _ _ _ _ _ _ _ _ _ _ _ Hr H0 H63 Hloop)
      as (Hw & Hlog2 & He2 & Hbuf2).
    pose proof (release_fields iter2 m2) as Hrel.
    unfold squashfs_xattr_iterator_end.
    destruct (xattr_iterator_release_buffer iter2 m2) as [iter3 m3].
    destruct Hrel as (_ & _ & _ & _ & _ & _ & _ & _ & _ & Hlog3).
    eexists _, _, _. split; [reflexivity|].
    splits.
    + destruct (err2 <? 0) eqn:H2; lia.
    + rewrite Hlog3. lia.
    + rewrite Hlog3. lia.
    + intros Hb. rewrite Z.add_0_l in Hbuf2. apply Hbuf2.
      intros b Hbb. specialize (Hb b Hbb). lia.
Qed.

(** The same for [squashfs_getxattr]. *)
Lemma getxattr_any_reader (E : env) d qname buffer size m :
  let st := squashfs_xattr_iterator_start E (d_inode d) m in
  exists ret buffer' m',
    squashfs_getxattr E d qname buffer size m = Some (ret, buffer', m') /\
    requested (io_log m) <= requested (io_log m') <=
      requested (io_log m) + sizeof_xattr_header + remaining_bytes st.1.2 /\
    ((((st.1.1 < 0 /\ ret = st.1.1) \/ ret = - ENODATA \/ ret = - ERANGE) /\
      buffer' = buffer) \/
     (0 <= ret <= 65536 /\
      match buffer with
      | None => buffer' = None
      | Some b =>
          ret <= size /\
          exists b', buffer' = Some b' /\
            (size <= len b ->
             length b' = length b /\ drop (Z.to_nat size) b' = drop (Z.to_nat size) b)
      end)).
Proof.
  unfold squashfs_getxattr.
  destruct (squashfs_xattr_iterator_start E (d_inode d) m) as [[err iter] m1] eqn:Hs.
  cbn [fst snd]. cbv zeta.
  destruct (start_any E _ _ _ _ _ Hs) as (Hn & Hv & Hc & Hr & _).
  destruct (start_requests E _ _ _ _ _ Hs) as (Hlog1 & Hzero & _).
  unfold squashfs_xattr_iterator_end.
  destruct (err <? 0) eqn:Herr.
  - eexists _, _, _. split; [reflexivity|]. split; [lia|].
    left. split; [left; lia | reflexivity].
  - destruct (err =? 0) eqn:Herr0.
    + pose proof (release_fields iter m1) as Hrel.
      destruct (xattr_iterator_release_buffer iter m1) as [iter3 m3].
      destruct Hrel as (_ & _ & _ & _ & _ & _ & _ & _ & _ & Hlog3).
      eexists _, _, _. split; [reflexivity|]. rewrite Hlog3. split; [lia|].
      left. split; [right; left|]; reflexivity.
    + destruct (getxattr_loop_total E (loop_bound iter) iter qname buffer size m1 Hr)
        as [[[[err2 buf2] iter2] m2] Hloop]; [apply loop_bound_enough; lia|].
      rewrite Hloop.
      destruct (getxattr_loop_bounds E _ _ _ _ _ _ _ _ _ _ Hr Hloop) as (Hlog2 & Hres).
      pose proof (release_fields iter2 m2) as Hrel.
      destruct (xattr_iterator_release_buffer iter2 m2) as [iter3 m3].
      destruct Hrel as (_ & _ & _ & _ & _ & _ & _ & _ & _ & Hlog3).
      eexists _, _, _. split; [reflexivity|]. rewrite Hlog3. split; [lia|].
      destruct Hres as [[[->| ->] ->]|Hfound].
      * left. split; [right; left|]; reflexivity.
      * left. split; [right; right|]; reflexivity.
      * right. exact Hfound.
Qed.

(** X7. Neither query asks the reader for more bytes than the budget the
    iterator starts with: the 4 bytes of the header and then at most
    [remaining_bytes] as [squashfs_xattr_iterator_start] leaves it, which
    is below [2 ^ 32].  This holds for every reader and every image,
    well-formed or not. *)
Theorem queries_read_within_the_declared_size (E : env) d qname buffer size m :
  let budget := remaining_bytes (squashfs_xattr_iterator_start E (d_inode d) m).1.2 in
  0 <= budget < 2 ^ 32 /\
  (exists r,
     squashfs_listxattr E d buffer size m = Some r /\
     requested (io_log m) <= requested (io_log r.2) <=
       requested (io_log m) + sizeof_xattr_header + budget) /\
  (exists r,
     squashfs_getxattr E d qname buffer size m = Some r /\
     requested (io_log m) <= requested (io_log r.2) <=
       requested (io_log m) + sizeof_xattr_header + budget).
Proof.
  cbv zeta. splits.
  - destruct (squashfs_xattr_iterator_start E (d_inode d) m) as [[err iter] m1] eqn:Hs.
    destruct (start_any E _ _ _ _ _ Hs) as (_ & _ & _ & Hr & _). simpl. lia.
  - destruct (squashfs_xattr_iterator_start E (d_inode d) m) as [[err iter] m1] eqn:Hs.
    destruct (start_any E _ _ _ _ _ Hs) as (_ & _ & _ & Hr & _). simpl. lia.
  - destruct (listxattr_any_reader E d buffer size m) as (ret & b' & m' & H & _ & Hlog & _).
    eexists. split; [exact H | exact Hlog].
  - destruct (getxattr_any_reader E d qname buffer size m) as (ret & b' & m' & H & Hlog & _).
    eexists. split; [exact H | exact Hlog].
Qed.

(** X8. A listing writes inside the caller's [size] bytes only, for
    every reader and image: given a buffer of at least [size] bytes, the
    buffer it returns has the same length and the same bytes from
    position [size] on, whatever the outcome of the call. *)
Theorem listxattr_writes_within_size (E : env) d b size m :
  0 <= size <= len b ->
  exists ret b' m',
    squashfs_listxattr E d (Some b) size m = Some (ret, Some b', m') /\
    length b' = length b /\
    drop (Z.to_nat size) b' = drop (Z.to_nat size) b.
Proof.
  intros Hsize.
  destruct (listxattr_any_reader E d (Some b) size m) as (ret & buf' & m' & H & _ & _ & Hb).
  destruct Hb as (b' & -> & Hlen & Hdrop); [intros b0 [= <-]; exact Hsize|].
  exists ret, b', m'. splits; assumption.
Qed.

Lemma listxattr_writes_within_size_witness :
  0 <= 5 <= len (replicate 6 xff) /\
  exists ret b' m',
    squashfs_listxattr E_root (on_image img_two) (Some (replicate 6 xff)) 5 empty_mem =
      Some (ret, Some b', m') /\
    length b' = length (replicate 6 xff) /\
    drop (Z.to_nat 5) b' = drop (Z.to_nat 5) (replicate 6 xff).
Proof.
  assert (H : 0 <= 5 <= len (replicate 6 xff)) by (vm_compute; split; congruence).
  split; [exact H|].
  apply (listxattr_writes_within_size E_root (on_image img_two) (replicate 6 xff) 5
           empty_mem H).
Defined.

(** X9. A lookup writes inside the caller's [size] bytes only, and only
    when it succeeds: for every reader and image, given a buffer of at
    least [size] bytes, the buffer it returns has the same length and the
    same bytes from position [size] on, and it is the caller's buffer
    unchanged whenever the result is negative. *)
Theorem getxattr_writes_within_size (E : env) d qname b size m :
  0 <= size <= len b ->
  exists ret b' m',
    squashfs_getxattr E d qname (Some b) size m = Some (ret, Some b', m') /\
    length b' = length b /\
    drop (Z.to_nat size) b' = drop (Z.to_nat size) b /\
    (ret < 0 -> b' = b).
Proof.
  intros Hsize.
  destruct (getxattr_any_reader E d qname (Some b) size m)
    as (ret & buf' & m' & H & _ & [[Hret ->]|[Hret (Hle & b' & -> & Hb)]]).
  - exists ret, b, m'. splits; try reflexivity. exact H.
  - destruct (Hb ltac:(lia)) as (Hlen & Hdrop).
    exists ret, b', m'. splits; try assumption. lia.
Qed.

Lemma getxattr_writes_within_size_witness :
  0 <= 1 <= len [xff; xff] /\
  exists ret b' m',
    squashfs_getxattr E_root (on_image img_abc) (bytes_of "abc") (Some [xff; xff]) 1
      empty_mem = Some (ret, Some b', m') /\
    length b' = length [xff; xff] /\
    drop (Z.to_nat 1) b' = drop (Z.to_nat 1) [xff; xff] /\
    (ret < 0 -> b' = [xff; xff]).
Proof.
  assert (H : 0 <= 1 <= len [xff; xff]) by (vm_compute; split; congruence).
  split; [exact H|].
  apply (getxattr_writes_within_size E_root (on_image img_abc) (bytes_of "abc")
           [xff; xff] 1 empty_mem H).
Defined.

(** X10. The values the queries return, for every reader and image.  A
    listing returns a negative error or a size between 0 and the budget
    the header gives, so below [2 ^ 32].  A lookup returns the error of
    reading the header, [-ENODATA], [-ERANGE], or a value length between
    0 and 65536, which is at most [size] when there is a buffer; and
    without a buffer neither query returns one. *)
Theorem query_results_are_in_range (E : env) d qname buffer size m :
  let st := squashfs_xattr_iterator_start E (d_inode d) m in
  (exists ret buffer' m',
     squashfs_listxattr E d buffer size m = Some (ret, buffer', m') /\
     (ret < 0 \/ (0 <= ret <= remaining_bytes st.1.2 /\ remaining_bytes st.1.2 < 2 ^ 32)) /\
     (buffer = None -> buffer' = None)) /\
  (exists ret buffer' m',
     squashfs_getxattr E d qname buffer size m = Some (ret, buffer', m') /\
     ((st.1.1 < 0 /\ ret = st.1.1) \/ ret = - ENODATA \/ ret = - ERANGE \/
      (0 <= ret <= 65536 /\ (is_Some buffer -> ret <= size))) /\
     (buffer = None -> buffer' = None)).
Proof.
  cbv zeta. split.
  - destruct (listxattr_any_reader E d buffer size m) as (ret & b' & m' & H & Hret & _ & Hb).
    exists ret, b', m'. splits; [exact H | |].
    + destruct (squashfs_xattr_iterator_start E (d_inode d) m) as [[err iter] m1] eqn:Hs.
      destruct (start_any E _ _ _ _ _ Hs) as (_ & _ & _ & Hr & _). simpl in *. lia.
    + intros ->. apply Hb. discriminate.
  - destruct (getxattr_any_reader E d qname buffer size m)
      as (ret & b' & m' & H & _ & [[Hret ->]|[Hret Hb]]).
    + exists ret, buffer, m'. splits; [exact H | tauto | tauto].
    + exists ret, b', m'. splits; [exact H | | ].
      * right. right. right. split; [exact Hret|].
        intros [b ->]. tauto.
      * intros ->. exact Hb.
Qed.

(** X11. When the read of the attribute-set header fails or comes up
    short, both queries return at once, with the reader's error or with
    [-EIO] for a short read; the caller's buffer is as it was, nothing was
    allocated and only the header was asked for. *)
Theorem header_read_failure_is_returned (E : env) d qname buffer size m :
  let ino := d_inode d in
  let blk := u64 (xattr_table (i_sb ino) + Z.shiftr (s32 (i_xattr ino)) 13) in
  let off := Z.land (s32 (i_xattr ino)) 8191 in
  let r := squashfs_read_metadata E (i_sb ino) blk off sizeof_xattr_header in
  let err := if rd_ret r <? 0 then rd_ret r else - EIO in
  let m' := Kmem (cells m) (alloc_fail m) (io_log m ++ [(blk, off, sizeof_xattr_header)]) in
  s32 (i_xattr ino) <> -1 ->
  xattr_table (i_sb ino) <> -1 ->
  rd_ret r < sizeof_xattr_header ->
  squashfs_listxattr E d buffer size m = Some (err, buffer, m') /\
  squashfs_getxattr E d qname buffer size m = Some (err, buffer, m').
Proof.
  cbv zeta. intros Hx Ht Hret.
  unfold squashfs_listxattr, squashfs_getxattr, squashfs_xattr_iterator_start,
    read_metadata.
  cbv zeta.
  cbn [name_len value_len name value sb block offset remaining_bytes
       set_lens set_name set_value set_cursor set_remaining].
  replace ((s32 (i_xattr (d_inode d)) =? -1) || (xattr_table (i_sb (d_inode d)) =? -1))
    with false by (symmetry; apply orb_false_iff; lia).
  set (r := squashfs_read_metadata E _ _ _ _) in *.
  destruct (rd_ret r <? 0) eqn:Hneg; cbv beta iota zeta.
  - replace (rd_ret r <=? 0) with true by lia. rewrite Hneg. split; reflexivity.
  - replace (rd_ret r <? sizeof_xattr_header) with true by lia. cbv beta iota zeta.
    replace (- EIO <=? 0) with true by reflexivity.
    replace (- EIO <? 0) with true by reflexivity.
    split; reflexivity.
Qed.

Lemma header_read_failure_witness :
  s32 (i_xattr (d_inode (on_image []))) <> -1 /\
  squashfs_listxattr E_unreadable (on_image []) None 0 empty_mem =
    Some (- EIO, None, Kmem ∅ [] [(0, 0, 4)]) /\
  squashfs_getxattr E_unreadable (on_image []) (bytes_of "abc") None 0 empty_mem =
    Some (- EIO, None, Kmem ∅ [] [(0, 0, 4)]).
Proof.
  assert (Hx : s32 (i_xattr (d_inode (on_image []))) <> -1) by (vm_compute; congruence).
  split; [exact Hx|].
  apply (header_read_failure_is_returned E_unreadable (on_image []) (bytes_of "abc")
           None 0 empty_mem Hx).
  - vm_compute. congruence.
  - vm_compute. reflexivity.
Defined.

(** X12. How the locator is decoded, for an inode that has an attribute
    set: the header is read at the block [xattr_table + (xattr >> 13)],
    taken as a [u64], and at the offset [xattr & 8191], which is below
    8192; block displacement and offset together give the locator back,
    and for a locator below [2 ^ 31] the displacement is its upper bits,
    below [2 ^ 18]. *)
Theorem locator_decoding (E : env) ino m :
  let xattr := s32 (i_xattr ino) in
  xattr <> -1 ->
  xattr_table (i_sb ino) <> -1 ->
  io_log (squashfs_xattr_iterator_start E ino m).2 =
    io_log m ++ [(u64 (xattr_table (i_sb ino) + Z.shiftr xattr 13),
                  Z.land xattr 8191, sizeof_xattr_header)] /\
  0 <= Z.land xattr 8191 < 8192 /\
  xattr = 8192 * Z.shiftr xattr 13 + Z.land xattr 8191 /\
  (0 <= i_xattr ino < 2 ^ 31 ->
   xattr = i_xattr ino /\ 0 <= Z.shiftr xattr 13 < 2 ^ 18).
Proof.
  cbv zeta. intros Hx Ht.
  assert (Hland : Z.land (s32 (i_xattr ino)) 8191 = s32 (i_xattr ino) mod 8192).
  { change 8191 with (Z.ones 13). rewrite Z.land_ones by lia. reflexivity. }
  assert (Hshift : Z.shiftr (s32 (i_xattr ino)) 13 = s32 (i_xattr ino) / 8192).
  { rewrite Z.shiftr_div_pow2 by lia. reflexivity. }
  splits.
  - unfold squashfs_xattr_iterator_start, read_metadata. cbv zeta.
    cbn [name_len value_len name value sb block offset remaining_bytes
         set_lens set_name set_value set_cursor set_remaining].
    replace ((s32 (i_xattr ino) =? -1) || (xattr_table (i_sb ino) =? -1)) with false
      by (symmetry; apply orb_false_iff; lia).
    repeat match goal with |- context [if ?c then _ else _] => destruct c end;
      reflexivity.
  - rewrite Hland. apply Z.mod_pos_bound. lia.
  - rewrite Hland. apply Z.mod_pos_bound. lia.
  - rewrite Hland, Hshift. apply Z.div_mod. lia.
  - intros Hlow. rewrite Hshift, s32_small by lia. split; [reflexivity|].
    split; [apply Z.div_pos; lia | apply Z.div_lt_upper_bound; lia].
Qed.

Lemma locator_decoding_witness :
  s32 (i_xattr (Inode (SuperBlock 100 []) 24581)) <> -1 /\
  io_log (squashfs_xattr_iterator_start E_unreadable (Inode (SuperBlock 100 []) 24581)
            empty_mem).2 = [(103, 5, 4)].
Proof.
  assert (Hx : s32 (i_xattr (Inode (SuperBlock 100 []) 24581)) <> -1)
    by (vm_compute; congruence).
  split; [exact Hx|].
  apply (proj1 (locator_decoding E_unreadable (Inode (SuperBlock 100 []) 24581) empty_mem
                  Hx ltac:(vm_compute; congruence))).
Defined.

(** X13. An inode whose locator is the sentinel (all 32 bits set, -1 as
    an [int]), or an image without xattr table, has the empty attribute
    set: the listing returns 0, every lookup returns [-ENODATA], and
    neither reads, allocates, or touches the buffer. *)
Theorem absent_attribute_set_is_empty (E : env) d qname buffer size m :
  i_xattr (d_inode d) = 4294967295 \/ i_xattr (d_inode d) = -1 \/
  xattr_table (i_sb (d_inode d)) = -1 ->
  squashfs_listxattr E d buffer size m = Some (0, buffer, m) /\
  squashfs_getxattr E d qname buffer size m = Some (- ENODATA, buffer, m).
Proof.
  intros H. apply no_xattrs_queries. unfold no_xattrs.
  destruct H as [-> | [-> | H]]; [left; reflexivity | left; reflexivity | right; exact H].
Qed.

Lemma absent_attribute_set_witness :
  squashfs_listxattr E_unreadable (Dentry (Inode (SuperBlock 0 []) 4294967295))
    (Some [xff]) 1 empty_mem = Some (0, Some [xff], empty_mem) /\
  squashfs_getxattr E_unreadable (Dentry (Inode (SuperBlock 0 []) 4294967295))
    (bytes_of "abc") (Some [xff]) 1 empty_mem = Some (- ENODATA, Some [xff], empty_mem).
Proof.
  apply (absent_attribute_set_is_empty E_unreadable
           (Dentry (Inode (SuperBlock 0 []) 4294967295)) (bytes_of "abc") (Some [xff]) 1
           empty_mem).
  left. reflexivity.
Defined.

(** ** Encoding and decoding *)

Lemma le32_length (z : Z) : length (le32 z) = 4%nat.
Proof. reflexivity. Qed.

Lemma byte_val_of_N (n : Z) :
  0 <= n < 256 -> byte_val (default x00 (Byte.of_N (Z.to_N n))) = n.
Proof.
  intros Hn. unfold byte_val.
  destruct (Byte.of_N (Z.to_N n)) as [b|] eqn:Hb.
  - simpl. apply Byte.to_of_N in Hb. rewrite Hb. lia.
  - apply Byte.of_N_None_iff in Hb. lia.
Qed.

Lemma split_le32 (z : Z) :
  0 <= z < 4294967296 ->
  z mod 256 + z / 256 mod 256 * 256 + z / 65536 mod 256 * 65536
    + z / 16777216 mod 256 * 16777216 = z.
Proof.
  intros Hz.
  assert (H3 : z / 16777216 mod 256 = z / 16777216).
  { apply Z.mod_small. split; [apply Z.div_pos; lia | apply Z.div_lt_upper_bound; lia]. }
  pose proof (Z.div_mod z 256 ltac:(lia)) as D0.
  pose proof (Z.div_mod (z / 256) 256 ltac:(lia)) as D1.
  pose proof (Z.div_mod (z / 65536) 256 ltac:(lia)) as D2.
  rewrite (Z.div_div z 256 256) in D1 by lia.
  rewrite (Z.div_div z 65536 256) in D2 by lia.
  change (256 * 256) with 65536 in D1. change (65536 * 256) with 16777216 in D2.
  rewrite H3.
  generalize dependent (z mod 256). generalize dependent (z / 256 mod 256).
  generalize dependent (z / 65536 mod 256). generalize dependent (z / 16777216).
  generalize dependent (z / 65536). generalize dependent (z / 256).
  intros. lia.
Qed.

Lemma le32_to_cpu_le32 (z : Z) (rest : list byte) :
  0 <= z < 2 ^ 32 -> le32_to_cpu (le32 z ++ rest) 0 = z.
Proof.
  intros Hz. unfold le32_to_cpu, le32.
  cbn [map app nth Nat.add].
  rewrite !byte_val_of_N by (apply Z.mod_pos_bound; lia).
  rewrite !Z.shiftl_mul_pow2, !Z.shiftr_div_pow2 by lia.
  change (8 * 0) with 0. change (8 * 1) with 8. change (8 * 2) with 16.
  change (8 * 3) with 24.
  change (2 ^ 0) with 1. change (2 ^ 8) with 256. change (2 ^ 16) with 65536.
  change (2 ^ 24) with 16777216. change (2 ^ 32) with 4294967296 in Hz.
  rewrite Z.div_1_r. apply split_le32. exact Hz.
Qed.

Lemma le32_to_cpu_skip (a rest : list byte) (z : Z) :
  length a = 4%nat -> le32_to_cpu (a ++ rest) 4 = le32_to_cpu rest 0.
Proof.
  intros Ha. destruct a as [|a0 [|a1 [|a2 [|a3 [|]]]]]; try discriminate. reflexivity.
Qed.

Lemma len_le32 (z : Z) : len (le32 z) = 4.
Proof. reflexivity. Qed.

Lemma flat_read_at (s : super_block) (a x b : list byte) (blk off : Z) :
  s_image s = a ++ x ++ b ->
  blk + off = len a ->
  flat_read s blk off (len x) = ReadResult (len x) x blk (off + len x).
Proof.
  intros Himg Hpos. unfold flat_read. rewrite Himg, Hpos, !to_nat_len.
  rewrite drop_app_length, take_app_length. reflexivity.
Qed.

Lemma encoded_stored (E : env) (s : super_block) (blk : Z) (es : list entry) :
  squashfs_read_metadata E = flat_read ->
  Forall (fun e : entry => len e.1 <= 4096 /\ len e.2 <= 65536) es ->
  forall pre post off B off' B',
  s_image s = pre ++ encode_entries es ++ post ->
  blk + off = len pre ->
  len (encode_entries es) <= B -> B < 2 ^ 32 ->
  off' = off + len (encode_entries es) ->
  B' = B - len (encode_entries es) ->
  stored E s blk off B es blk off' B'.
Proof.
  intros Hrd Hes.
  induction Hes as [|[nm v] es [Hnm Hv] Hes IH];
    intros pre post off B off' B' Himg Hpos HB HB32 -> ->.
  - cbn [encode_entries].
    replace (off + len []) with off by (unfold len; cbn [length]; lia).
    replace (B - len []) with B by (unfold len; cbn [length]; lia). apply stored_nil.
  - cbn [fst snd] in Hnm, Hv. cbn [encode_entries] in *.
    pose proof (len_nonneg nm) as Hnm0. pose proof (len_nonneg v) as Hv0.
    pose proof (len_nonneg (encode_entries es)) as Hes0.
    assert (Hlen : len (le32 (len nm) ++ le32 (len v) ++ nm ++ v ++ encode_entries es)
                   = 8 + len nm + len v + len (encode_entries es)).
    { rewrite !len_app, !len_le32. lia. }
    rewrite Hlen in *.
    apply (stored_cons E s blk off B nm v blk (off + 8 + len nm + len v)).
    + unfold entry_at. rewrite Hrd. unfold sizeof_xattr_entry.
      assert (H1 : flat_read s blk off 8 =
                   ReadResult 8 (le32 (len nm) ++ le32 (len v)) blk (off + 8)).
      { apply (flat_read_at s pre (le32 (len nm) ++ le32 (len v))
                 (nm ++ v ++ encode_entries es ++ post) blk off); [|exact Hpos].
        rewrite Himg, <- !app_assoc. reflexivity. }
      rewrite H1. cbn [rd_ret rd_data rd_block rd_offset].
      assert (H2 : flat_read s blk (off + 8) (len nm) =
                   ReadResult (len nm) nm blk (off + 8 + len nm)).
      { apply (flat_read_at s (pre ++ le32 (len nm) ++ le32 (len v)) nm
                 (v ++ encode_entries es ++ post) blk (off + 8)).
        - rewrite Himg, <- !app_assoc. reflexivity.
        - rewrite !len_app, !len_le32. lia. }
      rewrite H2. cbn [rd_ret rd_data rd_block rd_offset].
      assert (H3 : flat_read s blk (off + 8 + len nm) (len v) =
                   ReadResult (len v) v blk (off + 8 + len nm + len v)).
      { apply (flat_read_at s (pre ++ le32 (len nm) ++ le32 (len v) ++ nm) v
                 (encode_entries es ++ post) blk (off + 8 + len nm)).
        - rewrite Himg, <- !app_assoc. reflexivity.
        - rewrite !len_app, !len_le32. lia. }
      rewrite H3. cbn [rd_ret rd_data rd_block rd_offset].
      splits; try reflexivity; try assumption.
      * apply le32_to_cpu_le32. lia.
      * rewrite (le32_to_cpu_skip _ _ 0) by apply le32_length.
        rewrite <- (app_nil_r (le32 (len v))). apply le32_to_cpu_le32. lia.
    + lia.
    + exact HB32.
    + apply (IH (pre ++ le32 (len nm) ++ le32 (len v) ++ nm ++ v) post).
      * rewrite Himg, <- !app_assoc. reflexivity.
      * rewrite !len_app, !len_le32. lia.
      * lia.
      * lia.
      * lia.
      * lia.
Qed.

(** An encoded set, anywhere in an image, is a well-formed set for the
    reader of that image. *)
Lemma encoded_well_formed (E : env) (pre post : list byte) (es : list entry) :
  squashfs_read_metadata E = flat_read ->
  Forall (fun e : entry => len e.1 <= 4096 /\ len e.2 <= 65536) es ->
  4 + len (encode_entries es) < 2 ^ 32 ->
  len pre < 2 ^ 64 ->
  well_formed E (Inode (SuperBlock (len pre) (pre ++ encode_set es ++ post)) 0) es.
Proof.
  intros Hrd Hes Htot Hpre.
  pose proof (len_nonneg pre) as Hpre0.
  pose proof (len_nonneg (encode_entries es)) as Hes0.
  right. exists (4 + len (encode_entries es)), (len pre), 4, (len pre),
    (4 + len (encode_entries es)).
  set (s := SuperBlock (len pre) (pre ++ encode_set es ++ post)).
  assert (Hblk : u64 (len pre + Z.shiftr (s32 0) 13) = len pre).
  { change (Z.shiftr (s32 0) 13) with 0. unfold u64. rewrite Z.add_0_r.
    apply Z.mod_small. lia. }
  assert (H0 : flat_read s (len pre) 0 4 =
               ReadResult 4 (le32 (4 + len (encode_entries es))) (len pre) 4).
  { apply (flat_read_at s pre (le32 (4 + len (encode_entries es)))
             (encode_entries es ++ post) (len pre) 0); [|lia].
    unfold s, encode_set. cbn [s_image]. rewrite <- !app_assoc. reflexivity. }
  splits.
  - unfold header_at. cbn [i_sb i_xattr]. change (xattr_table s) with (len pre).
    rewrite Hblk, Hrd.
    change (Z.land (s32 0) 8191) with 0. unfold sizeof_xattr_header. rewrite H0.
    cbn [rd_ret rd_data rd_block rd_offset].
    splits; try reflexivity; try (change (s32 0) with 0; lia); try lia.
    rewrite <- (app_nil_r (le32 _)). apply le32_to_cpu_le32. lia.
  - lia.
  - cbn [i_sb]. fold s.
    apply (encoded_stored E s (len pre) es Hrd Hes
             (pre ++ le32 (4 + len (encode_entries es))) post 4).
    + unfold s, encode_set. cbn [s_image]. rewrite <- !app_assoc. reflexivity.
    + rewrite len_app, len_le32. lia.
    + lia.
    + lia.
    + lia.
    + lia.
Qed.

(** X14. Encode and decode: take any entries with names of at most 4096
    and values of at most 65536 bytes, lay them out as the code expects
    them (4-byte little-endian total size, then per entry the two 4-byte
    little-endian lengths, the name and the value) anywhere in an image,
    and point the table base at them.  Then, memory permitting, a
    privileged listing into a buffer of the right size is exactly the
    names, each followed by a NUL, and the lookup of a name that no
    earlier name matches gives back exactly its value. *)
Theorem encoded_set_round_trip (cap : Z -> bool) (pre post : list byte)
    (es : list entry) (m : kmem) :
  Forall (fun e : entry => len e.1 <= 4096 /\ len e.2 <= 65536) es ->
  4 + len (encode_entries es) < 2 ^ 32 ->
  len pre < 2 ^ 64 ->
  alloc_fail m = [] ->
  let E := Env flat_read cap in
  let d := Dentry (Inode (SuperBlock (len pre) (pre ++ encode_set es ++ post)) 0) in
  (cap CAP_SYS_ADMIN = true ->
   forall b, len b = all_names_size es ->
     exists m',
       squashfs_listxattr E d (Some b) (all_names_size es) m =
         Some (all_names_size es, Some (all_names es), m')) /\
  (forall (es1 es2 : list entry) nm v b,
     es = es1 ++ (nm, v) :: es2 ->
     Forall (fun e => name_matches nm e = false) es1 ->
     len b = len v ->
     exists m',
       squashfs_getxattr E d nm (Some b) (len v) m = Some (len v, Some v, m')).
Proof.
  intros Hes Htot Hpre Haf E d.
  assert (Hwf : well_formed E (d_inode d) es)
    by (apply encoded_well_formed; [reflexivity | assumption..]).
  split.
  - intros Hcap b Hlen.
    destruct (listxattr_well_formed E d es (Some b) (all_names_size es) m Hwf Haf)
      as (m' & H & _).
    { intros b0 [= <-]. rewrite (privileged_required_size E Hcap). lia. }
    exists m'. rewrite H, (privileged_required_size E Hcap), (privileged_listing E Hcap).
    cbn [option_map]. rewrite memcpy_all; [reflexivity|].
    pose proof (listing_length E es) as Hl.
    rewrite (privileged_required_size E Hcap), (privileged_listing E Hcap) in Hl.
    unfold len in *. lia.
  - intros es1 es2 nm v b -> Hes1 Hlen.
    destruct (getxattr_well_formed E d _ nm (Some b) (len v) m Hwf Haf) as (m' & H & _).
    exists m'.
    pose proof (find_unshadowed nm es1 es2 (nm, v) Hes1) as Hfind.
    unfold entry in *. rewrite H, Hfind.
    + unfold found_result. cbn [snd]. replace (len v <? len v) with false by lia.
      rewrite memcpy_all; [reflexivity | unfold len in *; lia].
    + rewrite <- (app_nil_r nm) at 1. apply name_matches_self.
Qed.

Lemma encoded_set_round_trip_witness :
  Forall (fun e : entry => len e.1 <= 4096 /\ len e.2 <= 65536) es_two /\
  exists m',
    squashfs_getxattr (Env flat_read (fun _ => false))
      (Dentry (Inode (SuperBlock (len [xff]) ([xff] ++ encode_set es_two ++ [xff])) 0))
      (bytes_of "user.b") (Some [x00; x00]) (len [x01; x02]) empty_mem =
      Some (len [x01; x02], Some [x01; x02], m').
Proof.
  assert (Hes : Forall (fun e : entry => len e.1 <= 4096 /\ len e.2 <= 65536) es_two).
  { repeat constructor; vm_compute; congruence. }
  split; [exact Hes|].
  apply (proj2 (encoded_set_round_trip (fun _ => false) [xff] [xff] es_two empty_mem Hes
                  ltac:(vm_compute; reflexivity) ltac:(vm_compute; reflexivity) eq_refl)
           [(bytes_of "trusted.a", [x2a])] [] (bytes_of "user.b") [x01; x02] [x00; x00]).
  - reflexivity.
  - repeat constructor.
  - reflexivity.
Defined.

(** ** The conntrack timeout extension *)

(** X15. Add and find: when the option is configured and the extension
    area keeps what is stored in it, an extension added for a timeout
    policy holds that policy and is found again under every protocol
    number with the 8 bits of the policy's [l4num], and under no other;
    and whatever [nf_ct_timeout_find] returns is the stored extension, of
    a policy with the 8 bits of the protocol asked for. *)
Theorem timeout_added_is_found {nf_conn : Type} (ops : ct_ext_ops nf_conn)
    (ct ct' : nf_conn) (t : ctnl_timeout) (gfp : Z) (ext : nf_conn_timeout) :
  (forall c id e, nf_ct_ext_find ops (ext_store ops c id e) id = Some e) ->
  nf_ct_timeout_ext_add true ops ct (Some t) gfp = (Some ext, ct') ->
  timeout ext = Some t /\
  nf_ct_timeout_find true ops ct' (l4num t) = Some (Some ext) /\
  (forall protonum, u8 protonum = u8 (l4num t) ->
     nf_ct_timeout_find true ops ct' protonum = Some (Some ext)) /\
  (forall protonum, u8 protonum <> u8 (l4num t) ->
     nf_ct_timeout_find true ops ct' protonum = Some None) /\
  (forall config c protonum e,
     nf_ct_timeout_find config ops c protonum = Some (Some e) ->
     config = true /\ nf_ct_ext_find ops c (NF_CT_EXT_TIMEOUT ops) = Some e /\
     exists t', timeout e = Some t' /\ u8 (l4num t') = u8 protonum).
Proof.
  intros Hlaw Hadd. unfold nf_ct_timeout_ext_add in Hadd.
  destruct (nf_ct_ext_add ops ct (NF_CT_EXT_TIMEOUT ops) gfp) as [ct1|]; [|discriminate].
  inversion Hadd; subst; clear Hadd.
  assert (Hsame : forall protonum, u8 protonum = u8 (l4num t) ->
            nf_ct_timeout_find true ops
              (ext_store ops ct1 (NF_CT_EXT_TIMEOUT ops) (NfConnTimeout (Some t))) protonum
            = Some (Some (NfConnTimeout (Some t)))).
  { intros protonum Heq. unfold nf_ct_timeout_find. cbv zeta. rewrite Hlaw.
    cbn [timeout]. rewrite Heq, Z.eqb_refl. reflexivity. }
  splits.
  - reflexivity.
  - apply Hsame. reflexivity.
  - exact Hsame.
  - intros protonum Hne. unfold nf_ct_timeout_find. cbv zeta. rewrite Hlaw.
    cbn [timeout].
    replace (u8 (l4num t) =? u8 protonum) with false by lia. reflexivity.
  - intros config c protonum e H. unfold nf_ct_timeout_find in H. cbv zeta in H.
    destruct config; [|discriminate].
    destruct (nf_ct_ext_find ops c (NF_CT_EXT_TIMEOUT ops)) as [e0|]; [|discriminate].
    destruct (timeout e0) as [t'|] eqn:Ht; [|discriminate].
    destruct (u8 (l4num t') =? u8 protonum) eqn:Hp; inversion H; subst.
    splits; try reflexivity. exists t'. split; [exact Ht | lia].
Qed.

Lemma timeout_added_is_found_witness :
  (forall c id e, nf_ct_ext_find slots_ops (ext_store slots_ops c id e) id = Some e) /\
  nf_ct_timeout_find true slots_ops
    (nf_ct_timeout_ext_add true slots_ops ∅ (Some (CtnlTimeout 1 [] 2 6 [])) 0).2 6
    = Some (Some (NfConnTimeout (Some (CtnlTimeout 1 [] 2 6 [])))) /\
  nf_ct_timeout_find true slots_ops
    (nf_ct_timeout_ext_add true slots_ops ∅ (Some (CtnlTimeout 1 [] 2 6 [])) 0).2 262
    = Some (Some (NfConnTimeout (Some (CtnlTimeout 1 [] 2 6 [])))) /\
  nf_ct_timeout_find true slots_ops
    (nf_ct_timeout_ext_add true slots_ops ∅ (Some (CtnlTimeout 1 [] 2 6 [])) 0).2 17
    = Some None.
Proof.
  assert (Hlaw : forall c id e,
            nf_ct_ext_find slots_ops (ext_store slots_ops c id e) id = Some e)
    by (intros c id e; apply lookup_insert_eq).
  split; [exact Hlaw|].
  assert (Hadd : nf_ct_timeout_ext_add true slots_ops ∅ (Some (CtnlTimeout 1 [] 2 6 [])) 0 =
                   (Some (NfConnTimeout (Some (CtnlTimeout 1 [] 2 6 []))),
                    (nf_ct_timeout_ext_add true slots_ops ∅
                       (Some (CtnlTimeout 1 [] 2 6 [])) 0).2))
    by reflexivity.
  destruct (timeout_added_is_found slots_ops ∅
              (nf_ct_timeout_ext_add true slots_ops ∅ (Some (CtnlTimeout 1 [] 2 6 [])) 0).2
              (CtnlTimeout 1 [] 2 6 []) 0
              (NfConnTimeout (Some (CtnlTimeout 1 [] 2 6 []))) Hlaw Hadd)
    as (_ & Hfound & Hsame & Hother & _).
  split; [exact Hfound|]. split.
  - apply (Hsame 262). reflexivity.
  - apply (Hother 17). discriminate.
Defined.

(** ** A read that fails in the middle of a set *)

Lemma next_header_error (E : env) base iter m :
  owns base iter m ->
  sizeof_xattr_entry <= remaining_bytes iter ->
  rd_ret (squashfs_read_metadata E (sb iter) (block iter) (offset iter)
            sizeof_xattr_entry) < 0 ->
  exists iter' m',
    squashfs_xattr_iterator_next E iter m =
      (rd_ret (squashfs_read_metadata E (sb iter) (block iter) (offset iter)
                 sizeof_xattr_entry), iter', m') /\
    owns base iter' m'.
Proof.
  intros Ho Hrem Herr.
  destruct (squashfs_xattr_iterator_next E iter m) as [[r iter'] m'] eqn:Hstep.
  exists iter', m'. split; [|eapply next_owns; eauto]. f_equal. f_equal.
  unfold squashfs_xattr_iterator_next in Hstep.
  pose proof (release_fields iter m) as Hf.
  destruct (xattr_iterator_release_buffer iter m) as [iter0 m0].
  destruct Hf as (_ & _ & Hs0 & Hb0 & Hof0 & Hrem0 & _).
  rewrite <- Hs0, <- Hb0, <- Hof0 in *. rewrite <- Hrem0 in Hrem.
  unfold xattr_iterator_read_next, read_metadata in Hstep. cbv zeta in Hstep.
  unfold sizeof_xattr_entry in *.
  replace (remaining_bytes iter0 =? 0) with false in Hstep by lia.
  replace (remaining_bytes iter0 <? 8) with false in Hstep by lia.
  cbn [sb block offset set_cursor] in Hstep.
  destruct (rd_ret _ <? 0) eqn:Hneg in Hstep; [|lia].
  inversion Hstep. reflexivity.
Qed.

(** X16. When the reader fails on the header of an entry, after any
    number of well-formed entries, a listing that gets that far returns
    the reader's error, and the live objects of memory are as before. *)
Theorem listxattr_returns_the_read_error (E : env) d es e buffer size m :
  unreadable_after E (d_inode d) es e ->
  alloc_fail m = [] ->
  (forall b, buffer = Some b ->
     required_size E es <= size /\ required_size E es <= len b) ->
  exists buffer' m',
    squashfs_listxattr E d buffer size m = Some (e, buffer', m') /\
    cells m' = cells m.
Proof.
  intros (total & blk & off & blk' & off' & B' & Hh & Hst & HB' & He & Hneg) Haf Hbuf.
  unfold squashfs_listxattr.
  pose proof (header_total _ _ _ _ _ Hh) as Ht.
  destruct (start_header _ _ _ _ _ m Hh) as (m1 & Hs & Hc1 & Haf1).
  rewrite Hs. simpl (1 <=? 0). cbv iota.
  pose proof (u32_range (total - 4)) as Hu.
  set (iter := Iter 0 0 None None (i_sb (d_inode d)) blk off (u32 (total - 4))).
  destruct (stored_budget _ _ _ _ _ _ _ _ _ Hst) as (H8 & Hrs & Hne).
  pose proof (required_size_nonneg E es) as Hrs0.
  unfold sizeof_xattr_entry in HB'.
  destruct (stored_fuel _ _ _ _ _ _ _ _ _ iter Hst ltac:(lia) eq_refl) as [k Hk].
  rewrite Hk.
  assert (Ho1 : owns (cells m) iter m1)
    by (rewrite <- Hc1; apply owns_none; reflexivity).
  destruct (listxattr_loop_stored _ _ (cells m) _ _ _ _ _ _ _ Hst (S k) iter buffer 0 size 0 m1)
    as (iter' & m' & Ho' & Haf' & Hs' & Hb' & Hof' & Hrem' & Heq);
    try assumption; try reflexivity; try congruence; try lia.
  { intros b Hb. destruct (Hbuf b Hb). lia. }
  rewrite Heq.
  destruct (next_header_error E (cells m) iter' m' Ho') as (iter2 & m2 & Hx & Ho2).
  { unfold sizeof_xattr_entry. lia. }
  { rewrite Hs', Hb', Hof', He. exact Hneg. }
  rewrite Hs', Hb', Hof', He in Hx.
  simpl listxattr_loop. rewrite Hx.
  replace (e =? 1) with false by lia. cbv iota.
  unfold squashfs_xattr_iterator_end.
  destruct (xattr_iterator_release_buffer iter2 m2) as [iter3 m3] eqn:Hrel.
  destruct (release_owns _ _ _ _ _ Ho2 Hrel) as (_ & _ & Hc3 & _).
  eexists _, m3. split; [|exact Hc3].
  replace (e <? 0) with true by lia. reflexivity.
Qed.

Lemma listxattr_returns_the_read_error_witness :
  unreadable_after (E_bad_sector 22) (d_inode (on_image img_two))
    [(bytes_of "trusted.a", [x2a])] (- EIO) /\
  exists buffer' m',
    squashfs_listxattr (E_bad_sector 22) (on_image img_two) None 0 empty_mem =
      Some (- EIO, buffer', m').
Proof.
  assert (H : unreadable_after (E_bad_sector 22) (d_inode (on_image img_two))
                [(bytes_of "trusted.a", [x2a])] (- EIO)).
  { exists 38, 0, 4, 0, 22, 16. splits; try (vm_compute; congruence).
    - vm_compute. splits; congruence.
    - eapply stored_cons; [| | |apply stored_nil].
      + vm_compute. splits; congruence.
      + vm_compute. congruence.
      + vm_compute. reflexivity. }
  split; [exact H|].
  destruct (listxattr_returns_the_read_error (E_bad_sector 22) (on_image img_two)
              [(bytes_of "trusted.a", [x2a])] (- EIO) None 0 empty_mem H eq_refl)
    as (b' & m' & Hl & _); [discriminate|].
  exists b', m'. exact Hl.
Defined.

(** ** A malformed entry in the middle of a set *)

(** X17. When an entry is malformed (there is budget left but not the 8
    bytes of a header, or the header declares a name longer than 4096, a
    value longer than 65536, or more bytes than the budget has left),
    whatever its position after well-formed entries, [squashfs_listxattr]
    returns [-EIO], the code the iterator has for this, provided the
    listing reaches the entry: no buffer, or room for the names before
    it; and the live objects of memory are as before. *)
Theorem listing_a_malformed_entry_fails_with_EIO (E : env) d es buffer size m :
  malformed_after E (d_inode d) es ->
  alloc_fail m = [] ->
  (forall b, buffer = Some b ->
     required_size E es <= size /\ required_size E es <= len b) ->
  exists buffer' m',
    squashfs_listxattr E d buffer size m = Some (- EIO, buffer', m') /\
    cells m' = cells m.
Proof.
  intros Hbad Haf Hbuf. exact (listxattr_malformed E d es buffer size m Hbad Haf Hbuf).
Qed.

Lemma listing_a_malformed_entry_witness :
  malformed_after E_root (d_inode (on_image img_bad_second)) [(bytes_of "abc", [x2a])] /\
  exists buffer' m',
    squashfs_listxattr E_root (on_image img_bad_second) (Some (replicate 4 xff)) 4
      empty_mem = Some (- EIO, buffer', m') /\
    cells m' = cells empty_mem.
Proof.
  split; [exact img_bad_second_malformed|].
  apply (listing_a_malformed_entry_fails_with_EIO E_root (on_image img_bad_second)
           [(bytes_of "abc", [x2a])] (Some (replicate 4 xff)) 4 empty_mem
           img_bad_second_malformed eq_refl).
  intros b [= <-]. split; vm_compute; congruence.
Defined.
